(** * Half-duplex chat adapter: the protocol engine, the turn wrapper and
      the chat-adapter facade

    A shallow embedding of
    - [DirectToEngineServerSentEventsChatAdapterAPI] (the protocol engine:
      [startNewConversation], [executeTurn], the REST turn loop and the
      server-sent-events reader, both behind [pRetry]),
    - [createHalfDuplexChatAdapter] / [createExecuteTurn] (the single-use
      turn handle),
    - the chat-adapter facade exercised by the test
      'postActivity() should reject when execute() throw'.

    Async generators are embedded as resumptions ([Gen]): a generator is a
    tree of yields and of reads and writes of the state it closes over, and
    [next] runs it to its next suspension.  The network, the URL parser and
    p-retry's choice of the reported error belong to the platform and are
    parameters ([Platform]). *)

From Stdlib Require Import Ascii.
From stdpp Require Import base option list strings gmap pretty relations.

Set Default Proof Using "Type".
Open Scope string_scope.
Open Scope list_scope.

(** ** Values that cross the wire *)

(** A JavaScript [Error]: what the engine and its callers observe of it is
    the message. *)
Record Error := MkError { message : string }.

(** The fields of a Bot Framework activity that the engine or the tests
    read.  [act_conversation] is [None] when the activity has no
    [conversation] object (reading [activity.conversation.id] then throws),
    [Some None] when it has one without an [id]. *)
Record Activity := {
  act_type : string;
  act_text : string;
  act_from : option string;
  act_conversation : option (option string)
}.

(** The values put in a request body. *)
Inductive JSON :=
| JBool (b : bool)
| JString (s : string)
| JActivity (a : Activity)
| JUndefined.

(** [type Transport = 'rest' | 'server sent events'], as
    TestCanvasBotAPIStrategy spells the two values. *)
Inductive Transport := Rest | ServerSentEvents.

(** ** URLs

    A parsed URL as the URL standard keeps it: a null query or fragment is
    [None], an empty one [Some ""]. *)
Record URL := {
  origin : string;
  pathname : list string;
  query : option string;
  fragment : option string
}.

(** The [search] getter: empty when the query is null or empty. *)
Definition search (u : URL) : string :=
  match query u with
  | None => ""
  | Some q => if decide (q = "") then "" else "?" +:+ q
  end.

(** The [hash] getter. *)
Definition hash (u : URL) : string :=
  match fragment u with
  | None => ""
  | Some f => if decide (f = "") then "" else "#" +:+ f
  end.

Definition strip_leading (c : ascii) (s : string) : string :=
  match s with
  | String c' rest => if decide (c' = c) then rest else s
  | EmptyString => s
  end.

(** The [search] setter: the empty string clears the query, otherwise one
    leading "?" is removed and the rest becomes the query.  The setter's
    percent-encoding pass is the identity on a value read from a parsed URL
    of the same scheme and is left out. *)
Definition set_search (v : string) (u : URL) : URL :=
  {| origin := origin u; pathname := pathname u;
     query := if decide (v = "") then None else Some (strip_leading "?"%char v);
     fragment := fragment u |}.

(** The [hash] setter. *)
Definition set_hash (v : string) (u : URL) : URL :=
  {| origin := origin u; pathname := pathname u;
     query := query u;
     fragment := if decide (v = "") then None else Some (strip_leading "#"%char v) |}.

(** [url.toString()]: the URL serializer. *)
Definition href (u : URL) : string :=
  origin u
  +:+ String.concat "" (map (fun seg => "/" +:+ seg) (pathname u))
  +:+ match query u with Some q => "?" +:+ q | None => "" end
  +:+ match fragment u with Some f => "#" +:+ f | None => "" end.

(** ** Requests and responses *)

(** The [init] given to [fetch].  [req_body] is the object whose JSON text is
    sent; [None] when [JSON.stringify] is given [undefined]. *)
Record Request := {
  req_url : URL;
  req_method : string;
  req_headers : gmap string string;
  req_body : option (gmap string JSON)
}.

(** What [parseBotResponse] returns; the engine reads these three fields. *)
Record BotResponse := {
  action : string;
  activities : list Activity;
  conversationId : option string
}.

(** An event of the event-stream parser.  [data] is kept as what
    [JSON.parse(data)] gives: the activity, or the error it throws. *)
Record ParsedEvent := {
  event : option string;
  data : Error + Activity
}.

(** A fetch [Response].  [json] is what
    [parseBotResponse(await response.json())] gives; [body] is the decoded
    event stream, [None] for a null body. *)
Record Response := {
  status : nat;
  content_type : option string;
  json : Error + BotResponse;
  body : option (list ParsedEvent)
}.

(** [response.ok]. *)
Definition ok (r : Response) : bool :=
  ((200 <=? status r) && (status r <=? 299))%nat.

(** One call of [fetch]: it rejects with a network error, or resolves to a
    response.  [NetworkError] stands for a rejection that p-retry takes for
    a network error and retries; a [TypeError] that p-retry does not
    recognise as one, which it rethrows at once, is not among the
    outcomes. *)
Inductive FetchOutcome :=
| NetworkError (e : Error)
| Responded (r : Response).

(** What the engine reads of the value a [prepare...] method resolves to.
    The engine only ever spreads [headers] into an object literal, so
    [prep_headers] holds what the spread copies: the own enumerable
    properties of the value, under their names as spelled
    ([own_properties] below gives them for each kind of [HeadersInit]). *)
Record StrategyRequestPrep := {
  prep_baseURL : URL;
  prep_body : option (gmap string JSON);
  prep_headers : option (gmap string string);
  prep_transport : option Transport
}.

(** [HalfDuplexChatAdapterAPIStrategy].  Each method is asynchronous and may
    answer differently from call to call: it is given the number of earlier
    strategy calls. *)
Record Strategy := {
  prepareStartNewConversation : nat -> Error + StrategyRequestPrep;
  prepareExecuteTurn : nat -> Error + StrategyRequestPrep
}.

Inductive StrategyCall := CalledPrepareStartNewConversation | CalledPrepareExecuteTurn.

(** What the engine takes from its platform. *)
Record Platform := {
  (** the network and the remote service: the outcome of a fetch, given
      every request sent so far, the current one last *)
  fetch_outcome : list Request -> FetchOutcome;
  (** [new URL(relativeURL, baseURL)] *)
  URL_new : string -> URL -> URL;
  (** p-retry's choice of the error it rejects with once the retries are
      spent, given the errors of the failed attempts *)
  mainError : list Error -> Error
}.

(** ** Async generators as resumptions *)

Inductive Gen (W R : Type) : Type :=
| Return (r : R)
| Throw (e : Error)
| Yield (a : Activity) (k : Gen W R)
| Get (k : W -> Gen W R)
| Put (w : W) (k : Gen W R)
| Closed.

Arguments Return {W R} r.
Arguments Throw {W R} e.
Arguments Yield {W R} a k.
Arguments Get {W R} k.
Arguments Put {W R} w k.
Arguments Closed {W R}.

(** The settled value of [generator.next()]. *)
Inductive IteratorResult (R : Type) :=
| IValue (a : Activity)
| IDone (r : option R)
| IThrow (e : Error).

Arguments IValue {R} a.
Arguments IDone {R} r.
Arguments IThrow {R} e.

(** One pull: run to the next [yield], [return] or [throw]. *)
Fixpoint next {W R} (g : Gen W R) (w : W) : IteratorResult R * Gen W R * W :=
  match g with
  | Return r => (IDone (Some r), Closed, w)
  | Throw e => (IThrow e, Closed, w)
  | Yield a k => (IValue a, k, w)
  | Get k => next (k w) w
  | Put w' k => next k w'
  | Closed => (IDone None, Closed, w)
  end.

(** How a generator ends when it is pulled until it is done. *)
Inductive Completion (R : Type) :=
| Completed (r : option R)
| Failed (e : Error).

Arguments Completed {R} r.
Arguments Failed {R} e.

(** [for await (const activity of g)] to the end: the activities yielded, in
    order, how the generator ended, and the state it leaves. *)
Fixpoint drain {W R} (g : Gen W R) (w : W) : list Activity * Completion R * W :=
  match g with
  | Return r => ([], Completed (Some r), w)
  | Throw e => ([], Failed e, w)
  | Yield a k => let '(acts, c, w') := drain k w in (a :: acts, c, w')
  | Get k => drain (k w) w
  | Put w' k => drain k w'
  | Closed => ([], Completed None, w)
  end.

(** [yield* g] followed by the rest of the generator body. *)
Fixpoint bind {W A B} (g : Gen W A) (f : A -> Gen W B) : Gen W B :=
  match g with
  | Return r => f r
  | Throw e => Throw e
  | Yield a k => Yield a (bind k f)
  | Get k => Get (fun w => bind (k w) f)
  | Put w k => Put w (bind k f)
  | Closed => Closed
  end.

(** [for (const a of acts) yield a], then [k]. *)
Fixpoint yield_each {W R} (acts : list Activity) (k : Gen W R) : Gen W R :=
  match acts with
  | [] => k
  | a :: rest => Yield a (yield_each rest k)
  end.

(** ** The protocol engine: DirectToEngineServerSentEventsChatAdapterAPI *)

(** The engine's private [#conversationId], with what the engine does to
    its surroundings: the HTTP exchanges in the order of the fetches, the
    strategy methods consulted, the errors handed to the telemetry
    client. *)
Record World := {
  this_conversationId : option string;
  exchanges : list (Request * FetchOutcome);
  strategy_calls : list StrategyCall;
  tracked : list Error
}.

Definition set_conversationId (c : option string) (w : World) : World :=
  {| this_conversationId := c; exchanges := exchanges w;
     strategy_calls := strategy_calls w; tracked := tracked w |}.

Definition add_exchange (x : Request * FetchOutcome) (w : World) : World :=
  {| this_conversationId := this_conversationId w; exchanges := exchanges w ++ [x];
     strategy_calls := strategy_calls w; tracked := tracked w |}.

Definition add_strategy_call (c : StrategyCall) (w : World) : World :=
  {| this_conversationId := this_conversationId w; exchanges := exchanges w;
     strategy_calls := strategy_calls w ++ [c]; tracked := tracked w |}.

Definition add_tracked (e : Error) (w : World) : World :=
  {| this_conversationId := this_conversationId w; exchanges := exchanges w;
     strategy_calls := strategy_calls w; tracked := tracked w ++ [e] |}.

(** A fresh engine: [#conversationId] is [undefined]. *)
Definition new_world : World :=
  {| this_conversationId := None; exchanges := []; strategy_calls := []; tracked := [] |}.

(** The requests sent so far, oldest first. *)
Definition requests (w : World) : list Request := map fst (exchanges w).

(** JavaScript truthiness of [string | undefined]. *)
Definition truthy (s : option string) : bool :=
  match s with
  | Some v => negb (String.eqb v "")
  | None => false
  end.

(** The character U+0022. *)
Definition double_quote : string := String (ascii_of_nat 34) EmptyString.

Definition RETRY_COUNT : nat := 4.
Definition MAX_TURN : nat := 1000.

Section Engine.
Context (P : Platform) (strategy : Strategy) (telemetry : bool).

Definition resolveURLWithQueryAndHash (relativeURL : string) (baseURL : URL) : URL :=
  let url := URL_new P relativeURL baseURL in
  let url := set_hash (hash baseURL) url in
  let url := set_search (search baseURL) url in
  url.

(** [fetch(url, init)] against the platform's network. *)
Definition fetch (req : Request) (w : World) : FetchOutcome * World :=
  let o := fetch_outcome P (requests w ++ [req]) in
  (o, add_exchange (req, o) w).

(** [pRetry(input, { onFailedAttempt, retries })].  [input] and
    [onFailedAttempt] close over the variable [currentResponse], threaded
    here as [cur].  After a failed attempt [onFailedAttempt] runs; when it
    throws, the promise rejects with what it threw; otherwise the input is
    tried again while retries are left.  The errors an attempt throws here
    are all of the kind p-retry retries: a rejection of [fetch] is a
    [NetworkError], which p-retry takes for a network error. *)
Fixpoint pRetry {A} (input : option Response -> World -> (Error + A) * option Response * World)
    (onFailedAttempt : option Response -> Error -> option Error)
    (retries : nat) (errors : list Error) (cur : option Response) (w : World)
    : (Error + A) * World :=
  let '(res, cur', w') := input cur w in
  match res with
  | inr a => (inr a, w')
  | inl e =>
    match onFailedAttempt cur' e with
    | Some thrown => (inl thrown, w')
    | None =>
      match retries with
      | 0 => (inl (mainError P (errors ++ [e])), w')
      | S retries' => pRetry input onFailedAttempt retries' (errors ++ [e]) cur' w'
      end
    end
  end.

(** [if (currentResponse && currentResponse.status < 500) throw error]:
    [Some e] when the callback throws [e]. *)
Definition onFailedAttempt (currentResponse : option Response) (error : Error) : option Error :=
  match currentResponse with
  | Some r => if (status r <? 500)%nat then Some error else None
  | None => None
  end.

Definition server_returned (r : Response) : Error :=
  MkError ("Server returned " +:+ pretty (status r) +:+ " while calling the service.").

(** [telemetry && promise.catch(error => telemetry.trackException(...))] *)
Definition trackException (e : Error) (w : World) : World :=
  if telemetry then add_tracked e w else w.

Definition conversation_headers (headers : option (gmap string string)) (w : World)
    : gmap string string :=
  let headers := default ∅ headers in
  if truthy (this_conversationId w)
  then <["x-ms-conversationid" := default "" (this_conversationId w)]> headers
  else headers.

Definition conversations_url (baseURL : URL) (w : World) : URL :=
  resolveURLWithQueryAndHash ("conversations/" +:+ default "" (this_conversationId w)) baseURL.

(** *** #postWithREST *)

Definition rest_request (baseURL : URL) (body : option (gmap string JSON))
    (headers : option (gmap string string)) (withBody : bool) (w : World) : Request :=
  {| req_url := conversations_url baseURL w;
     req_method := "POST";
     req_headers := <["content-type" := "application/json"]> (conversation_headers headers w);
     req_body := if withBody then body else Some ∅ |}.

(** What the attempt makes of the fetch: the parsed bot response, or the
    error the attempt throws. *)
Definition rest_result (o : FetchOutcome) : Error + BotResponse :=
  match o with
  | NetworkError e => inl e
  | Responded r => if ok r then json r else inl (server_returned r)
  end.

(** The function given to [pRetry]. *)
Definition rest_input (baseURL : URL) (body : option (gmap string JSON))
    (headers : option (gmap string string)) (withBody : bool)
    (currentResponse : option Response) (w : World)
    : (Error + BotResponse) * option Response * World :=
  let '(o, w') := fetch (rest_request baseURL body headers withBody w) w in
  (rest_result o,
   match o with Responded r => Some r | NetworkError _ => currentResponse end,
   w').

(** The [for] loop of [#postWithREST] with [turns] iterations left, that
    is from [numTurn = MAX_TURN - turns]. *)
Fixpoint postWithREST_from (baseURL : URL) (body : option (gmap string JSON))
    (headers : option (gmap string string)) (turns : nat) (withBody : bool)
    : Gen World unit :=
  match turns with
  | 0 => Return tt
  | S turns' =>
    Get (fun w =>
      let '(res, w1) :=
        pRetry (rest_input baseURL body headers withBody) onFailedAttempt RETRY_COUNT [] None w in
      match res with
      | inl e => Put (trackException e w1) (Throw e)
      | inr botResponse =>
        Put (if truthy (conversationId botResponse)
             then set_conversationId (conversationId botResponse) w1
             else w1)
          (yield_each (activities botResponse)
             (if decide (action botResponse = "continue")
              then postWithREST_from baseURL body headers turns' false
              else Return tt))
      end)
  end.

Definition postWithREST (baseURL : URL) (body : option (gmap string JSON))
    (headers : option (gmap string string)) : Gen World unit :=
  postWithREST_from baseURL body headers MAX_TURN true.

(** *** #postWithServerSentEvents *)

Definition sse_request (baseURL : URL) (body : option (gmap string JSON))
    (headers : option (gmap string string)) (w : World) : Request :=
  {| req_url := conversations_url baseURL w;
     req_method := "POST";
     req_headers :=
       <["content-type" := "application/json"]>
         (<["accept" := "text/event-stream"]> (conversation_headers headers w));
     req_body := body |}.

(** [/^text\/event-stream(;|$)/.test(contentType || '')] *)
Definition is_event_stream (contentType : option string) : bool :=
  let s := default "" contentType in
  String.eqb s "text/event-stream" || String.prefix "text/event-stream;" s.

(** The message quotes the two content types; a missing header reads
    null. *)
Definition wrong_content_type (contentType : option string) : Error :=
  MkError ("Server did not respond with content type of " +:+ double_quote
           +:+ "text/event-stream" +:+ double_quote +:+ ", instead, received "
           +:+ double_quote +:+ default "null" contentType +:+ double_quote +:+ ".").

Definition no_body : Error := MkError "Server did not respond with body.".

Definition sse_result (o : FetchOutcome) : Error + list ParsedEvent :=
  match o with
  | NetworkError e => inl e
  | Responded r =>
    if ok r then
      if is_event_stream (content_type r) then
        match body r with
        | Some events => inr events
        | None => inl no_body
        end
      else inl (wrong_content_type (content_type r))
    else inl (server_returned r)
  end.

Definition sse_input (baseURL : URL) (body : option (gmap string JSON))
    (headers : option (gmap string string))
    (currentResponse : option Response) (w : World)
    : (Error + list ParsedEvent) * option Response * World :=
  let '(o, w') := fetch (sse_request baseURL body headers w) w in
  (sse_result o,
   match o with Responded r => Some r | NetworkError _ => currentResponse end,
   w').

Definition cannot_read_id : Error :=
  MkError "Cannot read properties of undefined (reading 'id')".

(** The [TransformStream] over the parsed events, read by [for await]. *)
Fixpoint sse_activities (events : list ParsedEvent) : Gen World unit :=
  match events with
  | [] => Return tt
  | ev :: events' =>
    if decide (event ev = Some "end") then Return tt
    else if decide (event ev = Some "activity") then
      match data ev with
      | inl e => Throw e
      | inr activity =>
        Get (fun w =>
          if truthy (this_conversationId w) then Yield activity (sse_activities events')
          else
            match act_conversation activity with
            | None => Throw cannot_read_id
            | Some id => Put (set_conversationId id w) (Yield activity (sse_activities events'))
            end)
      end
    else sse_activities events'
  end.

Definition postWithServerSentEvents (baseURL : URL) (body : option (gmap string JSON))
    (headers : option (gmap string string)) : Gen World unit :=
  Get (fun w =>
    let '(res, w1) :=
      pRetry (sse_input baseURL body headers) onFailedAttempt RETRY_COUNT [] None w in
    match res with
    | inl e => Put (trackException e w1) (Throw e)
    | inr responseBody => Put w1 (sse_activities responseBody)
    end).

(** *** #post, startNewConversation, executeTurn *)

Definition post (baseURL : URL) (body : option (gmap string JSON))
    (headers : option (gmap string string)) (transport : option Transport)
    : Gen World unit :=
  match transport with
  | Some ServerSentEvents => postWithServerSentEvents baseURL body headers
  | _ => postWithREST baseURL body headers
  end.

Definition startNewConversation (emitStartConversationEvent : bool) : Gen World unit :=
  Get (fun w =>
    Put (add_strategy_call CalledPrepareStartNewConversation w)
      match prepareStartNewConversation strategy (length (strategy_calls w)) with
      | inl e => Throw e
      | inr prep =>
        post (prep_baseURL prep)
          (Some (<["emitStartConversationEvent" := JBool emitStartConversationEvent]>
                   (default ∅ (prep_body prep))))
          (prep_headers prep) (prep_transport prep)
      end).

Definition not_started : Error :=
  MkError "startNewConversation() must be called before executeTurn().".

Definition executeTurn (activity : Activity) : Gen World unit :=
  Get (fun w =>
    if truthy (this_conversationId w) then
      Put (add_strategy_call CalledPrepareExecuteTurn w)
        match prepareExecuteTurn strategy (length (strategy_calls w)) with
        | inl e => Throw e
        | inr prep =>
          post (prep_baseURL prep)
            (Some (<["activity" := JActivity activity]> (default ∅ (prep_body prep))))
            (prep_headers prep) (prep_transport prep)
        end
    else Throw not_started).

End Engine.

(** ** A URL parser for relative references

    The URL standard's relative, relative-slash, path, query and fragment
    states, for a reference without a scheme against a base with a
    hierarchical path: a path-relative reference, as "conversations/..."
    is, an absolute-path reference, as the one the test-canvas strategy
    builds, or a reference that is only a query or a fragment.  References
    that begin with two slashes, percent-encoding and the backslash rule of
    special schemes are left out.  It instantiates [URL_new] in the worked
    examples. *)

(** Cut [s] at the first [c]: what precedes it, and what follows it if [c]
    occurs. *)
Fixpoint split_first (c : ascii) (s : string) : string * option string :=
  match s with
  | EmptyString => ("", None)
  | String c' s' =>
    if decide (c' = c) then ("", Some s')
    else let '(before, after) := split_first c s' in (String c' before, after)
  end.

(** Cut [s] at every [c]. *)
Fixpoint split_on (c : ascii) (s : string) : list string :=
  match s with
  | EmptyString => [""]
  | String c' s' =>
    if decide (c' = c) then "" :: split_on c s'
    else
      match split_on c s' with
      | seg :: segs => String c' seg :: segs
      | [] => [String c' ""]
      end
  end.

Definition is_single_dot (seg : string) : bool :=
  bool_decide (seg ∈ ["."; "%2e"; "%2E"]).

Definition is_double_dot (seg : string) : bool :=
  bool_decide (seg ∈ [".."; ".%2e"; ".%2E"; "%2e."; "%2E."; "%2e%2e"; "%2e%2E"; "%2E%2e"; "%2E%2E"]).

(** The path state over the segments still to read. *)
Fixpoint path_state (segments : list string) (path : list string) : list string :=
  match segments with
  | [] => path
  | seg :: segments' =>
    let at_end := bool_decide (segments' = []) in
    if is_double_dot seg then
      path_state segments' (if at_end then removelast path ++ [""] else removelast path)
    else if is_single_dot seg then
      path_state segments' (if at_end then path ++ [""] else path)
    else path_state segments' (path ++ [seg])
  end.

Definition URL_new_relative (relativeURL : string) (baseURL : URL) : URL :=
  let '(before_hash, frag) := split_first "#"%char relativeURL in
  let '(path_part, qry) := split_first "?"%char before_hash in
  match path_part with
  | EmptyString =>
    {| origin := origin baseURL;
       pathname := pathname baseURL;
       query := match qry with Some q => Some q | None => query baseURL end;
       fragment := frag |}
  | String c after_slash =>
    {| origin := origin baseURL;
       pathname :=
         if decide (c = "/"%char)
         then path_state (split_on "/"%char after_slash) []
         else path_state (split_on "/"%char path_part) (removelast (pathname baseURL));
       query := qry;
       fragment := frag |}
  end.

(** ** The turn wrapper: createHalfDuplexChatAdapter.ts *)

(** The interface [HalfDuplexChatAdapterAPI] as [createExecuteTurn] and
    [createHalfDuplexChatAdapter] use it: both methods are awaited, so an
    implementation may also reject. *)
Class HalfDuplexChatAdapterAPI (S : Type) := {
  api_startNewConversation : bool -> S -> (Error + Gen S unit) * S;
  api_executeTurn : Activity -> S -> (Error + Gen S unit) * S
}.

(** The engine implements the interface: its two methods return the
    generator at once and run nothing before the first pull. *)
#[export] Instance engine_api (P : Platform) (strategy : Strategy) (telemetry : bool)
    : HalfDuplexChatAdapterAPI World := {|
  api_startNewConversation emit w := (inr (startNewConversation P strategy telemetry emit), w);
  api_executeTurn activity w := (inr (executeTurn P strategy telemetry activity), w)
|}.

(** An [ExecuteTurnFunction] is a closure over its own [obsoleted]
    variable: it is identified by the cell that holds the variable. *)
Abbreviation ExecuteTurnFunction := nat.

(** The state behind one adapter: the [api] object and the [obsoleted]
    variable of every closure [createExecuteTurn] has made, in order of
    creation. *)
Record Adapter (S : Type) := {
  api : S;
  obsoleted : list bool
}.

Arguments api {S} _.
Arguments obsoleted {S} _.

Definition TurnGenerator (S : Type) := Gen (Adapter S) ExecuteTurnFunction.

Definition obsoleted_error : Error :=
  MkError "This executeTurn() function is obsoleted. Please use a new one.".

Definition not_a_function : Error := MkError "executeTurn is not a function".

Section Wrapper.
Context {S : Type} `{HalfDuplexChatAdapterAPI S}.

Definition set_api (s : S) (w : Adapter S) : Adapter S :=
  {| api := s; obsoleted := obsoleted w |}.

Definition set_obsoleted (flags : list bool) (w : Adapter S) : Adapter S :=
  {| api := api w; obsoleted := flags |}.

(** A generator of the api, run inside the adapter: it reads and writes
    the api object only. *)
Fixpoint lift {R} (g : Gen S R) : Gen (Adapter S) R :=
  match g with
  | Return r => Return r
  | Throw e => Throw e
  | Yield a k => Yield a (lift k)
  | Get k => Get (fun w => lift (k (api w)))
  | Put s k => Get (fun w => Put (set_api s w) (lift k))
  | Closed => Closed
  end.

(** [createExecuteTurn(api)]: a new closure with [obsoleted = false]. *)
Definition createExecuteTurn (w : Adapter S) : ExecuteTurnFunction * Adapter S :=
  (length (obsoleted w), set_obsoleted (obsoleted w ++ [false]) w).

(** [(async function* () { yield* activities; return createExecuteTurn(api); })()] *)
Definition turnGenerator (activities : Gen S unit) : TurnGenerator S :=
  bind (lift activities)
    (fun _ => Get (fun w => let '(h, w') := createExecuteTurn w in Put w' (Return h))).

(** Calling the closure [h] with an activity: the body of the async
    function [createExecuteTurn] returns.  [inl] is a rejected promise. *)
Definition call (h : ExecuteTurnFunction) (activity : Activity) (w : Adapter S)
    : (Error + TurnGenerator S) * Adapter S :=
  match obsoleted w !! h with
  | None => (inl not_a_function, w)
  | Some true => (inl obsoleted_error, w)
  | Some false =>
    let w1 := set_obsoleted (<[h := true]> (obsoleted w)) w in
    let '(res, s) := api_executeTurn activity (api w1) in
    let w2 := set_api s w1 in
    match res with
    | inl e => (inl e, w2)
    | inr activities => (inr (turnGenerator activities), w2)
    end
  end.

(** What a caller holding the adapter can do next: call any closure, pull
    any turn generator. *)
Inductive adapter_step : Adapter S -> Adapter S -> Prop :=
| step_call h activity w :
    adapter_step w (call h activity w).2
| step_next (activities : Gen S unit) w :
    adapter_step w (next (turnGenerator activities) w).2.

End Wrapper.

(** [createHalfDuplexChatAdapter(strategy, init)()]: a new engine, and the
    wrapped generator of its first turn. *)
Definition createHalfDuplexChatAdapter (P : Platform) (strategy : Strategy) (telemetry : bool)
    (emitStartConversationEvent : option bool) : TurnGenerator World * Adapter World :=
  let w := {| api := new_world; obsoleted := [] |} in
  (turnGenerator (startNewConversation P strategy telemetry (default true emitStartConversationEvent)), w).

(** ** The chat-adapter facade *)

(** [ConnectionStatus] of botframework-directlinejs. *)
Inductive ConnectionStatus :=
| Uninitialized | Connecting | Online | ExpiredToken | FailedToConnect | Ended.

Definition ConnectionStatus_value (c : ConnectionStatus) : nat :=
  match c with
  | Uninitialized => 0 | Connecting => 1 | Online => 2
  | ExpiredToken => 3 | FailedToConnect => 4 | Ended => 5
  end.

(** What a [MockObserver] records. *)
Inductive Observation (A : Type) :=
| ObsStart
| ObsNext (a : A)
| ObsError (e : Error)
| ObsComplete.

Arguments ObsStart {A}.
Arguments ObsNext {A} a.
Arguments ObsError {A} e.
Arguments ObsComplete {A}.

(** Modelled from the spec: how one call of the facade's [execute] callable
    ends (section 4.7, behaviour 3): it throws, its promise rejects, or it
    resolves to a stream of activities that runs to its end. *)
Inductive ExecuteOutcome :=
| ExecuteThrows (e : Error)
| ExecuteRejects (e : Error)
| ExecuteResolves (activities : list Activity).

Definition thrown (o : ExecuteOutcome) : option Error :=
  match o with
  | ExecuteThrows e | ExecuteRejects e => Some e
  | ExecuteResolves _ => None
  end.

(** Modelled from the spec: the state of the chat-adapter facade
    (TurnBasedChatAdapter, of which only the test is at hand), as section 4.7
    describes it: what subscribers of [connectionStatus$] and [activity$]
    that subscribed at construction have observed, the cached error, and the
    number of [execute] calls made. *)
Record ChatAdapter := {
  connectionStatus_observations : list (Observation ConnectionStatus);
  activity_observations : list (Observation Activity);
  cachedError : option Error;
  execute_calls : nat
}.

(** Modelled from the spec: the facade once it has called the start callable
    and pumped [initialActivities]: [connectionStatus$] has emitted
    Uninitialized, Connecting and Online, and [activity$] every initial
    activity. *)
Definition connect (initialActivities : list Activity) : ChatAdapter :=
  {| connectionStatus_observations :=
       [ObsStart; ObsNext Uninitialized; ObsNext Connecting; ObsNext Online];
     activity_observations := ObsStart :: map ObsNext initialActivities;
     cachedError := None;
     execute_calls := 0 |}.

Definition synthetic_id (n : nat) : string := pretty n.

(** Modelled from the spec: [postActivity(activity)] with the facade's
    [execute] callable, and what the subscriber of the returned stream
    observes (section 4.7, behaviour 2 and 3).  With a cached error the
    subscriber errors with it at once.  Otherwise [execute] is called: when
    it throws or rejects, the subscriber errors with the thrown error,
    [connectionStatus$] emits FailedToConnect and completes, [activity$]
    completes and the error is cached; when it resolves, its activities go
    to [activity$] and the subscriber gets a synthetic id. *)
Definition postActivity (execute : nat -> Activity -> ExecuteOutcome)
    (activity : Activity) (f : ChatAdapter) : list (Observation string) * ChatAdapter :=
  match cachedError f with
  | Some e => ([ObsStart; ObsError e], f)
  | None =>
    match execute (execute_calls f) activity with
    | ExecuteResolves activities =>
      ([ObsStart; ObsNext (synthetic_id (execute_calls f)); ObsComplete],
       {| connectionStatus_observations := connectionStatus_observations f;
          activity_observations := activity_observations f ++ map ObsNext activities;
          cachedError := None;
          execute_calls := S (execute_calls f) |})
    | ExecuteThrows e | ExecuteRejects e =>
      ([ObsStart; ObsError e],
       {| connectionStatus_observations :=
            connectionStatus_observations f ++ [ObsNext FailedToConnect; ObsComplete];
          activity_observations := activity_observations f ++ [ObsComplete];
          cachedError := Some e;
          execute_calls := S (execute_calls f) |})
    end
  end.

(** Modelled from the spec: posted activities are taken one at a time, in
    the order they were posted. *)
Fixpoint postActivities (execute : nat -> Activity -> ExecuteOutcome)
    (posted : list Activity) (f : ChatAdapter)
    : list (list (Observation string)) * ChatAdapter :=
  match posted with
  | [] => ([], f)
  | activity :: posted' =>
    let '(obs, f') := postActivity execute activity f in
    let '(obss, f'') := postActivities execute posted' f' in
    (obs :: obss, f'')
  end.

(** * Vocabulary of the statements *)

(** ** Request phases *)

(** The state after further exchanges, nothing else changed. *)
Definition add_exchanges (xs : list (Request * FetchOutcome)) (w : World) : World :=
  {| this_conversationId := this_conversationId w; exchanges := exchanges w ++ xs;
     strategy_calls := strategy_calls w; tracked := tracked w |}.

(** A fetch that failed at the transport level: the network failed or the
    server answered 500 or above. *)
Definition transport_failure (o : FetchOutcome) : bool :=
  match o with
  | NetworkError _ => true
  | Responded r => (500 <=? status r)%nat
  end.

(** [currentResponse] after a fetch: the assignment is skipped when
    [fetch] rejects. *)
Definition current_response (currentResponse : option Response) (o : FetchOutcome)
    : option Response :=
  match o with Responded r => Some r | NetworkError _ => currentResponse end.

(** Both functions given to [pRetry] have this shape: build the request
    from the engine's state, fetch, keep the response in
    [currentResponse], decode. *)
Definition attempt (P : Platform) {A} (mk : World -> Request) (decode : FetchOutcome -> Error + A)
    (currentResponse : option Response) (w : World)
    : (Error + A) * option Response * World :=
  let '(o, w') := fetch P (mk w) w in
  (decode o, current_response currentResponse o, w').

(** A request is built from the conversation id alone. *)
Definition reads_id_only (mk : World -> Request) : Prop :=
  forall w1 w2, this_conversationId w1 = this_conversationId w2 -> mk w1 = mk w2.

(** [currentResponse] does not make [onFailedAttempt] throw. *)
Definition stale_ok (cur : option Response) : Prop :=
  match cur with
  | None => True
  | Some r => (500 <= status r)%nat
  end.

(** Why [pRetry] settled after the attempts with outcomes
    [failures ++ [o]]. *)
Definition settled {A} (decode : FetchOutcome -> Error + A) (retries : nat)
    (failures : list FetchOutcome) (o : FetchOutcome) (res : Error + A) : Prop :=
  match decode o with
  | inr a => res = inr a
  | inl e =>
    if transport_failure o
    then length failures = retries /\ exists e', res = inl e'
    else res = inl e
  end.

(** The outcomes of one request phase started in [w]: the attempts that
    failed at the transport level and were retried, and the last one. *)
Definition phase_outcomes (P : Platform) (mk : World -> Request) (w : World)
    (failures : list FetchOutcome) (o : FetchOutcome) : Prop :=
  Forall (fun o' => transport_failure o' = true) failures
  /\ length failures <= RETRY_COUNT
  /\ (forall i o', (failures ++ [o]) !! i = Some o' ->
        o' = fetch_outcome P (requests w ++ replicate (S i) (mk w))).

(** Where a request phase begins: at the head of every iteration of the
    REST loop (the first hop, with the body, and every continuation hop)
    and at the head of the server-sent-events reader. *)
Inductive Hop :=
| RestHop (turns : nat) (withBody : bool)
| SseHop.

Section HopDefinitions.
Context (P : Platform) (telemetry : bool).
Context (baseURL : URL) (body : option (gmap string JSON)) (headers : option (gmap string string)).

(** The generator standing at that place. *)
Definition hop_gen (h : Hop) : Gen World unit :=
  match h with
  | RestHop turns withBody => postWithREST_from P telemetry baseURL body headers (S turns) withBody
  | SseHop => postWithServerSentEvents P telemetry baseURL body headers
  end.

(** The request its attempts send. *)
Definition hop_request (h : Hop) (w : World) : Request :=
  match h with
  | RestHop _ withBody => rest_request P baseURL body headers withBody w
  | SseHop => sse_request P baseURL body headers w
  end.

(** The error an attempt throws for a fetch outcome, if it throws. *)
Definition hop_error (h : Hop) (o : FetchOutcome) : option Error :=
  match h with
  | RestHop _ _ => match rest_result o with inl e => Some e | inr _ => None end
  | SseHop => match sse_result o with inl e => Some e | inr _ => None end
  end.

(** [#post] starts at the first hop of its transport. *)
Definition first_hop (transport : option Transport) : Hop :=
  match transport with
  | Some ServerSentEvents => SseHop
  | _ => RestHop (pred MAX_TURN) true
  end.

End HopDefinitions.

(** ** Turns *)

(** [if (botResponse.conversationId) this.#conversationId = botResponse.conversationId] *)
Definition adopt (botResponse : BotResponse) (w : World) : World :=
  if truthy (conversationId botResponse)
  then set_conversationId (conversationId botResponse) w
  else w.

(** The two ways a turn begins. *)
Inductive Turn :=
| StartTurn (emitStartConversationEvent : bool)
| ExecuteTurn (activity : Activity).

Definition turn_gen (P : Platform) (strategy : Strategy) (telemetry : bool) (t : Turn)
    : Gen World unit :=
  match t with
  | StartTurn emit => startNewConversation P strategy telemetry emit
  | ExecuteTurn activity => executeTurn P strategy telemetry activity
  end.

(** The strategy method the turn consults. *)
Definition turn_prepare (strategy : Strategy) (t : Turn) : nat -> Error + StrategyRequestPrep :=
  match t with
  | StartTurn _ => prepareStartNewConversation strategy
  | ExecuteTurn _ => prepareExecuteTurn strategy
  end.

Definition turn_call (t : Turn) : StrategyCall :=
  match t with
  | StartTurn _ => CalledPrepareStartNewConversation
  | ExecuteTurn _ => CalledPrepareExecuteTurn
  end.

(** The body the turn hands to [#post]: the strategy body merged with
    [emitStartConversationEvent] or with the user activity. *)
Definition turn_body (t : Turn) (prep : StrategyRequestPrep) : gmap string JSON :=
  match t with
  | StartTurn emit => <["emitStartConversationEvent" := JBool emit]> (default ∅ (prep_body prep))
  | ExecuteTurn activity => <["activity" := JActivity activity]> (default ∅ (prep_body prep))
  end.

(** [executeTurn] needs a conversation id, [startNewConversation] does
    not. *)
Definition turn_allowed (t : Turn) (w : World) : bool :=
  match t with
  | StartTurn _ => true
  | ExecuteTurn _ => truthy (this_conversationId w)
  end.

(** A fetch the REST attempt accepts. *)
Definition rest_success (o : FetchOutcome) : bool :=
  match rest_result o with inr _ => true | inl _ => false end.

(** The activities a REST exchange delivered. *)
Definition received (o : FetchOutcome) : list Activity :=
  match rest_result o with inr botResponse => activities botResponse | inl _ => [] end.

(** The service answers a request 2xx with a bot response whose action is
    "continue". *)
Definition answers_continue (o : FetchOutcome) : Prop :=
  exists r botResponse,
    o = Responded r /\ ok r = true /\ json r = inr botResponse
    /\ action botResponse = "continue".

(** The exchanges of a list that the REST attempt accepted. *)
Definition successes (xs : list (Request * FetchOutcome)) : nat :=
  length (List.filter (fun x => rest_success x.2) xs).

(** ** URLs of requests *)

(** A query or fragment as the setters leave it: an empty one is dropped. *)
Definition non_empty (o : option string) : option string :=
  match o with
  | Some s => if decide (s = "") then None else Some s
  | None => None
  end.

(** ** Turn handles *)

Section HandleDefinitions.
Context {S : Type}.

(** Closures are never destroyed and [obsoleted] is never reset. *)
Definition flags_grow (w w' : Adapter S) : Prop :=
  forall h,
    (is_Some (obsoleted w !! h) -> is_Some (obsoleted w' !! h))
    /\ (obsoleted w !! h = Some true -> obsoleted w' !! h = Some true).

End HandleDefinitions.

(** ** Worked instances *)

(** A platform whose network is down, with the URL parser above. *)
Definition offline : Platform :=
  {| fetch_outcome := fun _ => NetworkError (MkError "fetch failed");
     URL_new := URL_new_relative;
     mainError := fun errors => default (MkError "") (last errors) |}.

(** [new URL('http://host/?api=start#1')] *)
Definition host_api_start : URL :=
  {| origin := "http://host"; pathname := [""]; query := Some "api=start"; fragment := Some "1" |}.

(** [new URL('http://test/')] *)
Definition http_test : URL :=
  {| origin := "http://test"; pathname := [""]; query := None; fragment := None |}.

(** A strategy that always answers the same, as the tests' strategies do. *)
Definition fixed_strategy (transport : Transport) : Strategy :=
  let prep := {| prep_baseURL := http_test; prep_body := None; prep_headers := None;
                 prep_transport := Some transport |} in
  {| prepareStartNewConversation := fun _ => inr prep;
     prepareExecuteTurn := fun _ => inr prep |}.

Definition morning : Activity :=
  {| act_type := "message"; act_text := "Morning."; act_from := Some "u-00001";
     act_conversation := None |}.

Definition hello : Activity :=
  {| act_type := "message"; act_text := "Hello, World!"; act_from := None;
     act_conversation := None |}.

Definition aloha : Activity :=
  {| act_type := "message"; act_text := "Aloha!"; act_from := None; act_conversation := None |}.

(** A service that answers every request with a bot response carrying the
    conversation id c-00002. *)
Definition renaming_service : Platform :=
  {| fetch_outcome := fun _ =>
       Responded {| status := 200; content_type := Some "application/json";
                    json := inr {| action := "waiting"; activities := [];
                                   conversationId := Some "c-00002" |};
                    body := None |};
     URL_new := URL_new_relative;
     mainError := fun errors => default (MkError "") (last errors) |}.

(** A service that answers 404 to everything. *)
Definition not_found : Response :=
  {| status := 404; content_type := None;
     json := inl (MkError "Unexpected end of JSON input"); body := None |}.

Definition service_404 : Platform :=
  {| fetch_outcome := fun _ => Responded not_found;
     URL_new := URL_new_relative;
     mainError := fun errors => default (MkError "") (last errors) |}.

(** A service that answers "continue" to everything. *)
Definition service_continue : Platform :=
  {| fetch_outcome := fun _ =>
       Responded {| status := 200; content_type := Some "application/json";
                    json := inr {| action := "continue"; activities := [hello];
                                   conversationId := None |};
                    body := None |};
     URL_new := URL_new_relative;
     mainError := fun errors => default (MkError "") (last errors) |}.

(** An api whose [executeTurn] rejects. *)
Definition rejecting_api : HalfDuplexChatAdapterAPI unit :=
  {| api_startNewConversation := fun _ s => (inr (Return tt), s);
     api_executeTurn := fun _ s => (inl (MkError "artificial"), s) |}.

(** The test's [execute]: it throws. *)
Definition execute_throws : nat -> Activity -> ExecuteOutcome :=
  fun _ _ => ExecuteThrows (MkError "artificial").

(** Scenario S1: a strategy that answers as the strategy of the tests
    does, with its header in a plain object, and a service that answers
    the first request "continue" with the conversation id c-00001, the
    second "continue" and the third "waiting".  (The tests wrap the header
    in a [Headers] instance: see [tests_strategy].) *)
Definition http_test_api_start : URL :=
  {| origin := "http://test"; pathname := [""]; query := Some "api=start"; fragment := Some "1" |}.

Definition strategy_S1 : Strategy :=
  let prep := {| prep_baseURL := http_test_api_start;
                 prep_body := Some {["dummy" := JString "dummy"]};
                 prep_headers := Some {["x-dummy" := "dummy"]};
                 prep_transport := Some Rest |} in
  {| prepareStartNewConversation := fun _ => inr prep;
     prepareExecuteTurn := fun _ => inr prep |}.

Definition ni_hao : Activity :=
  {| act_type := "message"; act_text := "Ni hao!"; act_from := None; act_conversation := None |}.

Definition bot_response (botResponse : BotResponse) : FetchOutcome :=
  Responded {| status := 200; content_type := Some "application/json";
               json := inr botResponse; body := None |}.

Definition service_S1 : Platform :=
  {| fetch_outcome := fun reqs =>
       match length reqs with
       | 1 => bot_response {| action := "continue"; activities := [hello];
                              conversationId := Some "c-00001" |}
       | 2 => bot_response {| action := "continue"; activities := [aloha];
                              conversationId := None |}
       | _ => bot_response {| action := "waiting"; activities := [ni_hao];
                              conversationId := None |}
       end;
     URL_new := URL_new_relative;
     mainError := fun errors => default (MkError "") (last errors) |}.

(** A service that is unavailable once, then answers 404. *)
Definition service_503_404 : Platform :=
  {| fetch_outcome := fun reqs =>
       match length reqs with
       | 1 => Responded {| status := 503; content_type := None;
                           json := inl (MkError "Unexpected end of JSON input");
                           body := None |}
       | _ => Responded not_found
       end;
     URL_new := URL_new_relative;
     mainError := fun errors => default (MkError "") (last errors) |}.

(** A service that answers 200 with a JSON content type to a request for an
    event stream. *)
Definition service_json_only : Platform :=
  {| fetch_outcome := fun _ =>
       Responded {| status := 200; content_type := Some "application/json";
                    json := inl (MkError "Unexpected end of JSON input");
                    body := Some [] |};
     URL_new := URL_new_relative;
     mainError := fun errors => default (MkError "") (last errors) |}.

(** ** The conversation id along a REST turn *)

(** The engine's conversation id after an exchange of a REST turn: a bot
    response that carries an id replaces it, anything else leaves it. *)
Definition id_after (id : option string) (o : FetchOutcome) : option string :=
  match rest_result o with
  | inr botResponse =>
    if truthy (conversationId botResponse) then conversationId botResponse else id
  | inl _ => id
  end.

(** Each request of the list goes to the conversation whose id the
    exchanges before it leave, starting from [id], and names it in the
    x-ms-conversationid header when there is one. *)
Fixpoint requests_follow_id (P : Platform) (baseURL : URL)
    (headers : option (gmap string string)) (id : option string)
    (xs : list (Request * FetchOutcome)) : Prop :=
  match xs with
  | [] => True
  | x :: xs' =>
    (req_url x.1 = resolveURLWithQueryAndHash P ("conversations/" +:+ default "" id) baseURL
     /\ req_headers x.1 !! "x-ms-conversationid"
        = if truthy id then id else default ∅ headers !! "x-ms-conversationid")
    /\ requests_follow_id P baseURL headers (id_after id x.2) xs'
  end.

(** ** The events of a stream *)

(** The events that precede the first 'end' event. *)
Fixpoint before_end (events : list ParsedEvent) : list ParsedEvent :=
  match events with
  | [] => []
  | ev :: events' =>
    if decide (event ev = Some "end") then [] else ev :: before_end events'
  end.

(** The activities of the 'activity' events whose data parses. *)
Definition parsed_activities (events : list ParsedEvent) : list Activity :=
  flat_map (fun ev =>
              if decide (event ev = Some "activity")
              then match data ev with inr activity => [activity] | inl _ => [] end
              else []) events.

(** Every 'activity' event of the list carries data that parses. *)
Definition activities_parse (events : list ParsedEvent) : Prop :=
  Forall (fun ev => event ev = Some "activity" -> exists activity, data ev = inr activity) events.

(** An event the reader passes over: neither 'activity' nor 'end'. *)
Definition passed_over (ev : ParsedEvent) : Prop :=
  event ev <> Some "end" /\ event ev <> Some "activity".

(** ** Steps that leave a handle alone *)

Section OtherSteps.
Context {S : Type} `{HalfDuplexChatAdapterAPI S}.

(** What a caller can do without invoking the closure [h]: call any other
    closure, pull any turn generator. *)
Inductive adapter_step_without (h : ExecuteTurnFunction) : Adapter S -> Adapter S -> Prop :=
| step_call_other h' activity w :
    h' <> h ->
    adapter_step_without h w (call h' activity w).2
| step_next_any (activities : Gen S unit) w :
    adapter_step_without h w (next (turnGenerator activities) w).2.

End OtherSteps.

(** ** The key a turn adds to the strategy body *)

Definition turn_key (t : Turn) : string :=
  match t with
  | StartTurn _ => "emitStartConversationEvent"
  | ExecuteTurn _ => "activity"
  end.

Definition turn_value (t : Turn) : JSON :=
  match t with
  | StartTurn emit => JBool emit
  | ExecuteTurn activity => JActivity activity
  end.

(** ** TestCanvasBotAPIStrategy *)

(** [encodeURI], on a string held as its UTF-8 bytes: the reserved and the
    unescaped characters of a URI and the number sign are kept, every other
    byte becomes a percent sign and two upper-case hexadecimal digits. *)
Definition hex_digit (n : nat) : ascii :=
  nth n (String.list_ascii_of_string "0123456789ABCDEF") "0"%char.

Definition percent_encode (c : ascii) : string :=
  String "%"%char
    (String (hex_digit (nat_of_ascii c / 16))
       (String (hex_digit (nat_of_ascii c mod 16)) "")).

Definition is_digit (c : ascii) : bool :=
  ((48 <=? nat_of_ascii c) && (nat_of_ascii c <=? 57))%nat.

Definition is_letter (c : ascii) : bool :=
  (((65 <=? nat_of_ascii c) && (nat_of_ascii c <=? 90))
   || ((97 <=? nat_of_ascii c) && (nat_of_ascii c <=? 122)))%nat.

Definition uri_kept (c : ascii) : bool :=
  is_digit c || is_letter c
  || existsb (Ascii.eqb c) (String.list_ascii_of_string ";/?:@&=+$,-_.!~*'()#").

Fixpoint encodeURI (s : string) : string :=
  match s with
  | EmptyString => ""
  | String c s' =>
    (if uri_kept c then String c "" else percent_encode c) +:+ encodeURI s'
  end.

(** The characters of a UUID: letters, digits and the hyphen. *)
Definition uuid_char (c : ascii) : bool :=
  is_digit c || is_letter c || Ascii.eqb c "-"%char.

Fixpoint uuid_chars (s : string) : bool :=
  match s with
  | EmptyString => true
  | String c s' => uuid_char c && uuid_chars s'
  end.

(** The constructor's argument.  [getTokenCallback] is asynchronous and may
    answer differently from call to call: it is given the number of earlier
    calls of the strategy, each of which asks for one token. *)
Record TestCanvasBotAPIStrategyInit := {
  botId : string;
  deltaToken : option string;
  environmentId : string;
  getTokenCallback : nat -> Error + string;
  islandURI : URL;
  transport : Transport
}.

(** The strategy object: the constructor resolves the base URL once; both
    methods ask for a token and answer with the same base URL, body and
    transport. *)
Definition TestCanvasBotAPIStrategy (P : Platform) (init : TestCanvasBotAPIStrategyInit)
    : Strategy :=
  let baseURL :=
    URL_new P
      ("/environments/" +:+ encodeURI (environmentId init)
       +:+ "/bots/" +:+ encodeURI (botId init) +:+ "/test/")
      (islandURI init) in
  let prepare := fun n =>
    match getTokenCallback init n with
    | inl e => inl e
    | inr token =>
      inr {| prep_baseURL := baseURL;
             prep_body :=
               Some {["deltaToken" := match deltaToken init with
                                      | Some d => JString d
                                      | None => JUndefined
                                      end]};
             prep_headers := Some {["authorization" := "Bearer " +:+ token]};
             prep_transport := Some (transport init) |}
    end in
  {| prepareStartNewConversation := prepare; prepareExecuteTurn := prepare |}.

(** ** Further worked instances *)

(** A service that is unavailable once and then answers "waiting" with one
    activity and the conversation id c-00001. *)
Definition service_503_waiting : Platform :=
  {| fetch_outcome := fun reqs =>
       match length reqs with
       | 1 => Responded {| status := 503; content_type := None;
                           json := inl (MkError "Unexpected end of JSON input");
                           body := None |}
       | _ => bot_response {| action := "waiting"; activities := [hello];
                              conversationId := Some "c-00001" |}
       end;
     URL_new := URL_new_relative;
     mainError := fun errors => default (MkError "") (last errors) |}.

Definition waiting_response : BotResponse :=
  {| action := "waiting"; activities := [hello]; conversationId := Some "c-00001" |}.

(** Events of a stream: an activity of the conversation c-00001, a comment
    event, the end of the turn, an activity that is not read. *)
Definition hello_c1 : Activity :=
  {| act_type := "message"; act_text := "Hello, World!"; act_from := None;
     act_conversation := Some (Some "c-00001") |}.

Definition activity_event (activity : Activity) : ParsedEvent :=
  {| event := Some "activity"; data := inr activity |}.

Definition ping_event : ParsedEvent :=
  {| event := Some "ping"; data := inl (MkError "Unexpected token") |}.

Definition end_event : ParsedEvent :=
  {| event := Some "end"; data := inl (MkError "Unexpected token") |}.

Definition started_world : World := set_conversationId (Some "c-00001") new_world.

(** The [prep] of [strategy_S1]. *)
Definition prep_S1 : StrategyRequestPrep :=
  {| prep_baseURL := http_test_api_start;
     prep_body := Some {["dummy" := JString "dummy"]};
     prep_headers := Some {["x-dummy" := "dummy"]};
     prep_transport := Some Rest |}.

(** A test-canvas strategy, with a token callback that resolves and with
    one that rejects. *)
Definition canvas_init (getToken : nat -> Error + string) : TestCanvasBotAPIStrategyInit :=
  {| botId := "11111111-2222-3333-4444-555555555555";
     deltaToken := None;
     environmentId := "aaaaaaaa-bbbb-cccc-dddd-eeeeeeeeeeee";
     getTokenCallback := getToken;
     islandURI := http_test;
     transport := Rest |}.

Definition token_resolves : nat -> Error + string := fun _ => inr "t0k3n".

Definition token_rejects : nat -> Error + string := fun _ => inl (MkError "no token").

(** ** What the service answered *)

(** The bot response an HTTP exchange delivered, read off the response:
    the JSON of a response with a 2xx status.  A fetch that rejected, a
    response with another status and a body that is not JSON deliver
    none. *)
Definition answered (o : FetchOutcome) : option BotResponse :=
  match o with
  | Responded r =>
    if ok r then match json r with inr botResponse => Some botResponse | inl _ => None end
    else None
  | NetworkError _ => None
  end.

(** The activities an HTTP exchange delivered. *)
Definition delivered (o : FetchOutcome) : list Activity :=
  match answered o with
  | Some botResponse => activities botResponse
  | None => []
  end.

(** The conversation id after an HTTP exchange of a REST turn: the one of
    the bot response delivered, when it carries a non-empty one. *)
Definition id_answered (id : option string) (o : FetchOutcome) : option string :=
  match answered o with
  | Some botResponse =>
    if truthy (conversationId botResponse) then conversationId botResponse else id
  | None => id
  end.

(** The conversation id the next request of a turn is built with.  Over
    server-sent events all requests of the turn are attempts of one phase,
    sent before the stream is read. *)
Definition id_after_exchange (transport : option Transport) (id : option string)
    (o : FetchOutcome) : option string :=
  match transport with
  | Some ServerSentEvents => id
  | _ => id_answered id o
  end.

(** ** The URL of a request, in the words of the specification *)

(** 'conversations/' followed by the id, or by nothing, resolved against
    the base URL, the query and the fragment then overwritten by those of
    the base URL, where an empty query or fragment counts as none. *)
Definition expected_url (P : Platform) (baseURL : URL) (id : option string) : URL :=
  let resolved := URL_new P ("conversations/" +:+ default "" id) baseURL in
  {| origin := origin resolved; pathname := pathname resolved;
     query := non_empty (query baseURL); fragment := non_empty (fragment baseURL) |}.

(** The same with the query and the fragment of the base URL taken over as
    they are. *)
Definition verbatim_url (P : Platform) (baseURL : URL) (id : option string) : URL :=
  let resolved := URL_new P ("conversations/" +:+ default "" id) baseURL in
  {| origin := origin resolved; pathname := pathname resolved;
     query := query baseURL; fragment := fragment baseURL |}.

(** Each request of the list goes to the expected URL for the conversation
    id that the exchanges before it leave, starting from [id]. *)
Fixpoint urls_follow_id (P : Platform) (baseURL : URL) (transport : option Transport)
    (id : option string) (xs : list (Request * FetchOutcome)) : Prop :=
  match xs with
  | [] => True
  | x :: xs' =>
    req_url x.1 = expected_url P baseURL id
    /\ urls_follow_id P baseURL transport (id_after_exchange transport id x.2) xs'
  end.

(** ** Header names *)

(** [fetch] reads the headers object into a header list whose names are
    lower-cased: two keys that differ in case only name one header, and
    both values are sent. *)
Definition lower_ascii (c : ascii) : ascii :=
  let n := nat_of_ascii c in
  if ((65 <=? n) && (n <=? 90))%nat then ascii_of_nat (n + 32) else c.

Fixpoint lower (s : string) : string :=
  match s with
  | EmptyString => EmptyString
  | String c s' => String (lower_ascii c) (lower s')
  end.

(** The entries of a headers object that [fetch] sends under [name], a
    name in lower case. *)
Definition entries_named (name : string) (headers : gmap string string)
    : gmap string string :=
  filter (fun kv => lower kv.1 = name) headers.

(** No key of the headers object is another spelling of [name]. *)
Definition only_spelling (name : string) (headers : gmap string string) : bool :=
  forallb (fun kv => implb (String.eqb (lower kv.1) name) (String.eqb kv.1 name))
    (map_to_list headers).

(** ** The headers a strategy answers with *)

(** [HeadersInit]: a plain object, a [Headers] instance or an array of
    name-value pairs. *)
Inductive HeadersInit :=
| HeadersObject (entries : gmap string string)
| HeadersInstance (entries : list (string * string))
| HeadersArray (pairs : list (string * string)).

(** [{ ...headers }] copies the own enumerable properties of the value.  A
    plain object has its entries.  A [Headers] instance has none: its
    entries are not properties.  An array has its elements under their
    indices, each a pair, which [fetch] reads as the text name,value. *)
Definition own_properties (headers : HeadersInit) : gmap string string :=
  match headers with
  | HeadersObject entries => entries
  | HeadersInstance _ => ∅
  | HeadersArray pairs =>
    list_to_map (imap (fun i kv => (pretty i, kv.1 +:+ "," +:+ kv.2)) pairs)
  end.

(** What a [prepare...] method of a strategy object resolves to. *)
Record StrategyAnswer := {
  ans_baseURL : URL;
  ans_body : option (gmap string JSON);
  ans_headers : option HeadersInit;
  ans_transport : option Transport
}.

(** [const { baseURL, body, headers, transport } = await ...], with the
    headers as the engine reads them. *)
Definition destructured (answer : StrategyAnswer) : StrategyRequestPrep :=
  {| prep_baseURL := ans_baseURL answer;
     prep_body := ans_body answer;
     prep_headers := own_properties <$> ans_headers answer;
     prep_transport := ans_transport answer |}.

(** A strategy object. *)
Record StrategyObject := {
  object_prepareStartNewConversation : nat -> Error + StrategyAnswer;
  object_prepareExecuteTurn : nat -> Error + StrategyAnswer
}.

(** The strategy object as the engine reads it. *)
Definition strategy_of (s : StrategyObject) : Strategy :=
  {| prepareStartNewConversation := fun n =>
       match object_prepareStartNewConversation s n with
       | inl e => inl e
       | inr answer => inr (destructured answer)
       end;
     prepareExecuteTurn := fun n =>
       match object_prepareExecuteTurn s n with
       | inl e => inl e
       | inr answer => inr (destructured answer)
       end |}.

(** The method of the strategy object a turn consults. *)
Definition object_prepare (s : StrategyObject) (t : Turn) : nat -> Error + StrategyAnswer :=
  match t with
  | StartTurn _ => object_prepareStartNewConversation s
  | ExecuteTurn _ => object_prepareExecuteTurn s
  end.

(** ** Worked instances for URLs, the iteration ceiling and headers *)

(** [new URL('http://host/?#')]: an empty query and an empty fragment. *)
Definition host_empty_query_and_hash : URL :=
  {| origin := "http://host"; pathname := [""]; query := Some ""; fragment := Some "" |}.

(** A strategy that always answers with the given base URL. *)
Definition strategy_at (baseURL : URL) (transport : Transport) : Strategy :=
  let prep := {| prep_baseURL := baseURL; prep_body := None; prep_headers := None;
                 prep_transport := Some transport |} in
  {| prepareStartNewConversation := fun _ => inr prep;
     prepareExecuteTurn := fun _ => inr prep |}.

(** A service that answers every other request 503 and the others 200 with
    the action "continue" and one activity. *)
Definition service_503_then_continue : Platform :=
  {| fetch_outcome := fun reqs =>
       if Nat.even (length reqs)
       then Responded {| status := 200; content_type := Some "application/json";
                         json := inr {| action := "continue"; activities := [hello];
                                        conversationId := None |};
                         body := None |}
       else Responded {| status := 503; content_type := None;
                         json := inl (MkError "Unexpected end of JSON input");
                         body := None |};
     URL_new := URL_new_relative;
     mainError := fun errors => default (MkError "") (last errors) |}.

(** The strategy of the wrapper's tests: its headers are a [Headers]
    instance. *)
Definition tests_strategy (transport : Transport) : StrategyObject :=
  {| object_prepareStartNewConversation := fun _ =>
       inr {| ans_baseURL := http_test_api_start;
              ans_body := Some {["dummy" := JString "dummy"]};
              ans_headers := Some (HeadersInstance [("x-dummy", "dummy")]);
              ans_transport := Some transport |};
     object_prepareExecuteTurn := fun _ =>
       inr {| ans_baseURL :=
                {| origin := "http://test"; pathname := [""];
                   query := Some "api=execute"; fragment := Some "2" |};
              ans_body := Some {["dummy" := JString "dummy"]};
              ans_headers := Some (HeadersInstance [("x-dummy", "dummy")]);
              ans_transport := Some transport |} |}.

(** A strategy whose headers spell two of the engine's header names in
    another case. *)
Definition strategy_capitalised_headers (transport : Transport) : Strategy :=
  let prep := {| prep_baseURL := http_test; prep_body := None;
                 prep_headers := Some {["Content-Type" := "text/plain";
                                        "X-MS-ConversationId" := "c-00002"]};
                 prep_transport := Some transport |} in
  {| prepareStartNewConversation := fun _ => inr prep;
     prepareExecuteTurn := fun _ => inr prep |}.

(** ** Exchanges that end an iteration *)

(** The service answered with a status below 500: such an exchange is not
    retried. *)
Definition below_500 (o : FetchOutcome) : bool :=
  match o with
  | Responded r => (status r <? 500)%nat
  | NetworkError _ => false
  end.

(** The exchanges of a list that were answered with a status below 500. *)
Definition exchanges_below_500 (xs : list (Request * FetchOutcome)) : nat :=
  length (List.filter (fun x => below_500 x.2) xs).

(** * Properties *)

(** ** The model on the scenarios of the tests *)

(** Scenario S1 on the code: three activities over three hops, then the
    handle; the first request goes to conversations/ with the merged body
    and without the conversation header, the two continuation hops to
    conversations/c-00001 with the header and the empty object. *)
Example scenario_S1 :
  let '(acts, c, w) :=
    drain (@turnGenerator World (startNewConversation service_S1 strategy_S1 false true))
      {| api := new_world; obsoleted := [] |} in
  acts = [hello; aloha; ni_hao]
  /\ c = Completed (Some 0)
  /\ obsoleted w = [false]
  /\ this_conversationId (api w) = Some "c-00001"
  /\ map (fun x => href (req_url x.1)) (exchanges (api w))
     = ["http://test/conversations/?api=start#1";
        "http://test/conversations/c-00001?api=start#1";
        "http://test/conversations/c-00001?api=start#1"]
  /\ map (fun x => (fun b : gmap string JSON =>
                     (b !! "dummy", b !! "emitStartConversationEvent", size b))
                  <$> req_body x.1) (exchanges (api w))
     = [Some (Some (JString "dummy"), Some (JBool true), 2);
        Some (None, None, 0); Some (None, None, 0)]
  /\ map (fun x => req_headers x.1 !! "x-ms-conversationid") (exchanges (api w))
     = [None; Some "c-00001"; Some "c-00001"]
  /\ map (fun x => req_headers x.1 !! "x-dummy") (exchanges (api w))
     = [Some "dummy"; Some "dummy"; Some "dummy"].
Proof. vm_compute. repeat split. Qed.

(** A 503 is retried, the 404 that follows is not: two attempts. *)
Example retry_then_404 :
  let '(res, _, w) := next (postWithREST service_503_404 false http_test None None) new_world in
  res = IThrow (server_returned not_found) /\ length (exchanges w) = 2.
Proof. vm_compute. repeat split. Qed.

(** The engine's [executeTurn] returns its generator at once, so a failing
    turn fails at the first pull of the stream the handle resolved to; the
    handle is obsoleted all the same.  Here the first turn of a
    conversation yields nothing and leaves the conversation id unset. *)
Example failed_turn_is_not_sent_again :
  let api0 := engine_api offline (fixed_strategy Rest) false in
  let w := {| api := new_world; obsoleted := [false] |} in
  match @call World api0 0 morning w with
  | (inr stream, w1) =>
    (next stream w1).1.1 = IThrow not_started
    /\ (@call World api0 0 morning (next stream w1).2).1 = inl obsoleted_error
  | (inl _, _) => False
  end.
Proof. vm_compute. repeat split. Qed.

(** The wrong content type in server-sent-events mode: one attempt. *)
Example wrong_content_type_not_retried :
  let '(res, _, w) :=
    next (postWithServerSentEvents service_json_only false http_test None None) new_world in
  res = IThrow (wrong_content_type (Some "application/json")) /\ length (exchanges w) = 1.
Proof. vm_compute. repeat split. Qed.

(** ** Generators *)

Section GenFacts.
Context {W R : Type}.

(** Pulling until done is pulling once and going on with what is left. *)
Lemma drain_next (g : Gen W R) (w : W) :
  drain g w =
  match next g w with
  | (IValue a, k, w') => let '(acts, c, w'') := drain k w' in (a :: acts, c, w'')
  | (IDone r, _, w') => ([], Completed r, w')
  | (IThrow e, _, w') => ([], Failed e, w')
  end.
Proof.
  revert w; induction g as [r|e|a k IH|k IH|w0 k IH|]; intros w; simpl; auto.
Qed.

Lemma next_Closed (w : W) : next (@Closed W R) w = (IDone None, Closed, w).
Proof. reflexivity. Qed.

Lemma drain_yield_each (acts : list Activity) (k : Gen W R) (w : W) :
  drain (yield_each acts k) w =
  let '(acts', c, w') := drain k w in (acts ++ acts', c, w').
Proof.
  induction acts as [|a acts IH]; simpl.
  - by destruct (drain k w) as [[??]?].
  - rewrite IH. by destruct (drain k w) as [[??]?].
Qed.
End GenFacts.

(** ** The retried request phase *)

Lemma add_exchanges_nil w : add_exchanges [] w = w.
Proof. destruct w; unfold add_exchanges; simpl; by rewrite app_nil_r. Qed.

Lemma add_exchanges_app xs ys w :
  add_exchanges ys (add_exchanges xs w) = add_exchanges (xs ++ ys) w.
Proof. unfold add_exchanges; simpl; by rewrite app_assoc. Qed.

Lemma requests_add_exchanges xs w :
  requests (add_exchanges xs w) = requests w ++ map fst xs.
Proof. unfold requests; simpl; by rewrite map_app. Qed.

Section RequestPhase.
Context (P : Platform).

Lemma rest_input_attempt baseURL body headers withBody :
  rest_input P baseURL body headers withBody =
  attempt P (rest_request P baseURL body headers withBody) rest_result.
Proof. reflexivity. Qed.

Lemma sse_input_attempt baseURL body headers :
  sse_input P baseURL body headers = attempt P (sse_request P baseURL body headers) sse_result.
Proof. reflexivity. Qed.

Lemma rest_request_reads_id_only baseURL body headers withBody :
  reads_id_only (rest_request P baseURL body headers withBody).
Proof.
  intros w1 w2 Hid. unfold rest_request, conversations_url, conversation_headers.
  by rewrite Hid.
Qed.

Lemma sse_request_reads_id_only baseURL body headers :
  reads_id_only (sse_request P baseURL body headers).
Proof.
  intros w1 w2 Hid. unfold sse_request, conversations_url, conversation_headers.
  by rewrite Hid.
Qed.

Lemma stale_ok_current cur o :
  stale_ok cur -> transport_failure o = true -> stale_ok (current_response cur o).
Proof.
  destruct o as [e|r]; simpl; [done|]. intros _ H. by apply Nat.leb_le.
Qed.

Lemma onFailedAttempt_current cur o e :
  stale_ok cur ->
  onFailedAttempt (current_response cur o) e = if transport_failure o then None else Some e.
Proof.
  intros Hcur. destruct o as [ne|r]; unfold onFailedAttempt, transport_failure, current_response.
  - destruct cur as [r0|]; [|done]. unfold stale_ok in Hcur.
    destruct (Nat.ltb_spec (status r0) 500); [lia|done].
  - destruct (Nat.ltb_spec (status r) 500), (Nat.leb_spec 500 (status r)); done || lia.
Qed.

(** One attempt of [pRetry]. *)
Lemma pRetry_unfold {A} (mk : World -> Request) (decode : FetchOutcome -> Error + A)
    (retries : nat) (errors : list Error) (cur : option Response) (w : World) :
  stale_ok cur ->
  pRetry P (attempt P mk decode) onFailedAttempt retries errors cur w =
  let o := fetch_outcome P (requests w ++ [mk w]) in
  let w' := add_exchanges [(mk w, o)] w in
  match decode o with
  | inr a => (inr a, w')
  | inl e =>
    if transport_failure o then
      match retries with
      | 0 => (inl (mainError P (errors ++ [e])), w')
      | S retries' =>
        pRetry P (attempt P mk decode) onFailedAttempt retries' (errors ++ [e])
          (current_response cur o) w'
      end
    else (inl e, w')
  end.
Proof.
  intros Hcur. destruct retries; cbn [pRetry]; unfold attempt, fetch; cbv zeta;
    change (add_exchange ?x w) with (add_exchanges [x] w);
    (destruct (decode _); [|done]);
    rewrite onFailedAttempt_current by done;
    by destruct (transport_failure _).
Qed.

(** What a retried request phase does: it sends the same request once per
    attempt; every attempt but the last failed at the transport level; the
    phase stops at the first attempt that succeeds or fails below 500, or
    when the retries are spent. *)
Lemma pRetry_attempt {A} (mk : World -> Request) (decode : FetchOutcome -> Error + A)
    (retries : nat) (errors : list Error) (cur : option Response) (w : World) :
  reads_id_only mk ->
  stale_ok cur ->
  exists failures o res,
    pRetry P (attempt P mk decode) (onFailedAttempt) retries errors cur w
      = (res, add_exchanges (map (pair (mk w)) (failures ++ [o])) w)
    /\ Forall (fun o' => transport_failure o' = true /\ exists e, decode o' = inl e) failures
    /\ length failures <= retries
    /\ (forall i o', (failures ++ [o]) !! i = Some o' ->
          o' = fetch_outcome P (requests w ++ replicate (S i) (mk w)))
    /\ settled decode retries failures o res.
Proof.
  intros Hmk. revert errors cur w.
  induction retries as [|retries IH]; intros errors cur w Hcur;
    rewrite pRetry_unfold by done; cbv zeta;
    set (o1 := fetch_outcome P (requests w ++ [mk w]));
    set (w1 := add_exchanges [(mk w, o1)] w);
    destruct (decode o1) as [e|a] eqn:Hdec.
  - exists [], o1. destruct (transport_failure o1) eqn:Htf;
      (eexists; split_and!; [done|done|done| |]);
      try (intros [|i] o'; simpl; [by intros [= <-]|done]);
      unfold settled; rewrite Hdec, Htf; eauto.
  - exists [], o1, (inr a). split_and!; [done|done|done| |].
    + intros [|i] o'; simpl; [by intros [= <-]|done].
    + unfold settled. by rewrite Hdec.
  - destruct (transport_failure o1) eqn:Htf.
    + destruct (IH (errors ++ [e]) (current_response cur o1) w1)
        as (failures & o & res & Hrun & Hfail & Hlen & Hout & Hset);
        [by apply stale_ok_current|].
      assert (Hw1 : mk w1 = mk w) by (by apply Hmk).
      exists (o1 :: failures), o, res. split_and!.
      * rewrite Hrun, Hw1. unfold w1. by rewrite add_exchanges_app.
      * constructor; eauto.
      * simpl; lia.
      * intros [|i] o'; simpl; [by intros [= <-]|].
        intros Hi. rewrite (Hout i o' Hi), Hw1. unfold w1.
        rewrite requests_add_exchanges. simpl. by rewrite <- app_assoc.
      * unfold settled in Hset |- *. destruct (decode o); [|done].
        destruct (transport_failure o); [|done].
        destruct Hset as [Hl ?]. simpl. by rewrite Hl.
    + exists [], o1, (inl e). split_and!; [done|done|simpl; lia| |].
      * intros [|i] o'; simpl; [by intros [= <-]|done].
      * unfold settled. by rewrite Hdec, Htf.
  - exists [], o1, (inr a). split_and!; [done|done|simpl; lia| |].
    + intros [|i] o'; simpl; [by intros [= <-]|done].
    + unfold settled. by rewrite Hdec.
Qed.

(** Neither decoder accepts a transport failure. *)
Lemma rest_result_transport_failure o :
  transport_failure o = true -> exists e, rest_result o = inl e.
Proof.
  destruct o as [e|r]; [simpl; eauto|].
  unfold transport_failure, rest_result. intros H%Nat.leb_le.
  unfold ok. destruct (Nat.leb_spec (status r) 299); [lia|].
  rewrite andb_false_r. eauto.
Qed.

Lemma sse_result_transport_failure o :
  transport_failure o = true -> exists e, sse_result o = inl e.
Proof.
  destruct o as [e|r]; [simpl; eauto|].
  unfold transport_failure, sse_result. intros H%Nat.leb_le.
  unfold ok. destruct (Nat.leb_spec (status r) 299); [lia|].
  rewrite andb_false_r. eauto.
Qed.
End RequestPhase.

(** ** Request phases of a turn *)

Section Hops.
Context (P : Platform) (telemetry : bool).
Context (baseURL : URL) (body : option (gmap string JSON)) (headers : option (gmap string string)).

Lemma post_first_hop transport :
  post P telemetry baseURL body headers transport = hop_gen P telemetry baseURL body headers (first_hop transport).
Proof. by destruct transport as [[]|]. Qed.

Lemma hop_request_reads_id_only h : reads_id_only (hop_request P baseURL body headers h).
Proof.
  destruct h; [apply rest_request_reads_id_only | apply sse_request_reads_id_only].
Qed.

Lemma exchanges_trackException e w :
  exchanges (trackException telemetry e w) = exchanges w.
Proof. unfold trackException. by destruct telemetry. Qed.


(** A request phase stops at an attempt that fails with a response below
    500. *)
Lemma phase_short_circuit {A} (mk : World -> Request) (decode : FetchOutcome -> Error + A)
    w k r e :
  reads_id_only mk ->
  (forall o, transport_failure o = true -> exists e, decode o = inl e) ->
  k <= RETRY_COUNT ->
  (forall j, j < k ->
     transport_failure (fetch_outcome P (requests w ++ replicate (S j) (mk w))) = true) ->
  fetch_outcome P (requests w ++ replicate (S k) (mk w)) = Responded r ->
  status r < 500 ->
  decode (Responded r) = inl e ->
  exists xs,
    pRetry P (attempt P mk decode) onFailedAttempt RETRY_COUNT [] None w
      = (inl e, add_exchanges xs w)
    /\ length xs = S k
    /\ last xs = Some (mk w, Responded r).
Proof.
  intros Hmk Hdec Hk Hbefore Hat Hlt He.
  assert (Hntf : transport_failure (Responded r) = false).
  { unfold transport_failure. apply Nat.leb_gt. lia. }
  destruct (pRetry_attempt P mk decode RETRY_COUNT [] None w Hmk I)
    as (failures & o & res & Hrun & Hfail & Hlen & Hout & Hset).
  assert (Hlast : o = fetch_outcome P (requests w ++ replicate (S (length failures)) (mk w))).
  { apply Hout. by rewrite lookup_app_r, Nat.sub_diag by lia. }
  destruct (Nat.lt_trichotomy (length failures) k) as [Hn|[Hn|Hn]].
  - (* the phase cannot have stopped before attempt k *)
    exfalso. pose proof (Hbefore _ Hn) as Ho. rewrite <- Hlast in Ho.
    unfold settled in Hset. destruct (Hdec o Ho) as [e0 He0].
    rewrite He0, Ho in Hset. lia.
  - subst k. rewrite Hat in Hlast. subst o.
    unfold settled in Hset. rewrite He, Hntf in Hset. subst res.
    eexists. split; [exact Hrun|]. split.
    + rewrite length_map, length_app. simpl. lia.
    + rewrite map_app. simpl. apply last_snoc.
  - (* nor gone past it *)
    exfalso. destruct (lookup_lt_is_Some_2 failures k Hn) as [o' Ho'].
    pose proof (Hout k o' ltac:(by rewrite lookup_app_l by lia)) as Heq.
    rewrite Hat in Heq. subst o'.
    rewrite Forall_forall in Hfail.
    destruct (Hfail (Responded r)) as [Htf _]; [by eapply list_elem_of_lookup_2|].
    congruence.
Qed.
End Hops.


(** C5. An attempt of the retried request phase that fails while the
    response just received carries a status below 500 (a 404, or a 2xx with
    the wrong content type or no body in server-sent-events mode, or a 2xx
    whose JSON is rejected in REST mode) is the last attempt: when [k]
    attempts that failed at the transport level came before it, the phase
    makes exactly [k + 1] fetches, the last one being this one, and its
    error is thrown by the pull as the turn's error.  For [k = 0], the
    failure on the first attempt, exactly one HTTP attempt occurs. *)
Theorem no_retry_below_500
    (P : Platform) (telemetry : bool) (baseURL : URL)
    (body : option (gmap string JSON)) (headers : option (gmap string string))
    (h : Hop) (w : World) (k : nat) (r : Response) (e : Error) :
  let req := hop_request P baseURL body headers h w in
  k <= RETRY_COUNT ->
  (forall j, j < k ->
     transport_failure (fetch_outcome P (requests w ++ replicate (S j) req)) = true) ->
  fetch_outcome P (requests w ++ replicate (S k) req) = Responded r ->
  status r < 500 ->
  hop_error h (Responded r) = Some e ->
  exists w',
    next (hop_gen P telemetry baseURL body headers h) w = (IThrow e, Closed, w')
    /\ length (exchanges w') = length (exchanges w) + S k
    /\ last (exchanges w') = Some (req, Responded r).
Proof.
  intros req Hk Hbefore Hat Hlt He.
  destruct h as [turns withBody|]; unfold hop_error in He; cbn [hop_gen hop_request] in *.
  - destruct (rest_result (Responded r)) as [e0|] eqn:Hres; [|done].
    injection He as ->.
    destruct (phase_short_circuit P _ rest_result w k r e
                (rest_request_reads_id_only P baseURL body headers withBody)
                rest_result_transport_failure Hk Hbefore Hat Hlt Hres)
      as (xs & Hrun & Hlen & Hlast).
    cbn [postWithREST_from next]. rewrite rest_input_attempt, Hrun.
    eexists. split; [reflexivity|].
    rewrite exchanges_trackException. cbn [add_exchanges exchanges].
    rewrite length_app, Hlen. split; [done|].
    destruct xs as [|x xs] using rev_ind; [done|].
    rewrite app_assoc, last_snoc. by rewrite last_snoc in Hlast.
  - destruct (sse_result (Responded r)) as [e0|] eqn:Hres; [|done].
    injection He as ->.
    destruct (phase_short_circuit P _ sse_result w k r e
                (sse_request_reads_id_only P baseURL body headers)
                sse_result_transport_failure Hk Hbefore Hat Hlt Hres)
      as (xs & Hrun & Hlen & Hlast).
    unfold postWithServerSentEvents. cbn [next]. rewrite sse_input_attempt, Hrun.
    eexists. split; [reflexivity|].
    rewrite exchanges_trackException. cbn [add_exchanges exchanges].
    rewrite length_app, Hlen. split; [done|].
    destruct xs as [|x xs] using rev_ind; [done|].
    rewrite app_assoc, last_snoc. by rewrite last_snoc in Hlast.
Qed.

(** C3. On an engine whose conversation id is unset ([undefined], or the
    empty string the code treats alike), the generator [executeTurn]
    returns throws on its first pull the error
    'startNewConversation() must be called before executeTurn().', and that
    pull leaves everything as it was: the strategy was not consulted and no
    HTTP request was sent. *)
Theorem executeTurn_before_startNewConversation
    (P : Platform) (strategy : Strategy) (telemetry : bool) (activity : Activity) (w : World) :
  truthy (this_conversationId w) = false ->
  exists w',
    next (executeTurn P strategy telemetry activity) w
      = (IThrow (MkError "startNewConversation() must be called before executeTurn()."),
         Closed, w')
    /\ strategy_calls w' = strategy_calls w
    /\ exchanges w' = exchanges w
    /\ w' = w.
Proof.
  intros Hunset. exists w. unfold executeTurn. cbn [next]. rewrite Hunset. done.
Qed.

(** ** URL composition *)

Lemma search_set_search (base u : URL) : search (set_search (search base) u) = search base.
Proof.
  unfold search, set_search; simpl.
  destruct (query base) as [q|]; [|done].
  destruct (decide (q = "")) as [->|Hq]; [done|].
  change ("?" +:+ q) with (String "?"%char q). simpl.
  by destruct (decide (q = "")).
Qed.

Lemma hash_set_hash (base u : URL) : hash (set_hash (hash base) u) = hash base.
Proof.
  unfold hash, set_hash; simpl.
  destruct (fragment base) as [f|]; [|done].
  destruct (decide (f = "")) as [->|Hf]; [done|].
  change ("#" +:+ f) with (String "#"%char f). simpl.
  by destruct (decide (f = "")).
Qed.

Lemma query_set_search (base u : URL) :
  query (set_search (search base) u) = non_empty (query base).
Proof.
  unfold search, set_search, non_empty; simpl.
  destruct (query base) as [q|]; [|done].
  by destruct (decide (q = "")).
Qed.

Lemma fragment_set_hash (base u : URL) :
  fragment (set_hash (hash base) u) = non_empty (fragment base).
Proof.
  unfold hash, set_hash, non_empty; simpl.
  destruct (fragment base) as [f|]; [|done].
  by destruct (decide (f = "")).
Qed.

(** What [resolveURLWithQueryAndHash] returns: origin and path of the
    resolved URL, query and fragment of the base. *)
Lemma resolveURLWithQueryAndHash_spec (P : Platform) (relativeURL : string) (baseURL : URL) :
  let url := resolveURLWithQueryAndHash P relativeURL baseURL in
  origin url = origin (URL_new P relativeURL baseURL)
  /\ pathname url = pathname (URL_new P relativeURL baseURL)
  /\ query url = non_empty (query baseURL)
  /\ fragment url = non_empty (fragment baseURL)
  /\ search url = search baseURL
  /\ hash url = hash baseURL.
Proof.
  unfold resolveURLWithQueryAndHash. cbv zeta. split_and!.
  - done.
  - done.
  - apply query_set_search.
  - apply fragment_set_hash.
  - apply search_set_search.
  - unfold hash at 1. cbn [set_search fragment]. fold (hash (set_hash (hash baseURL) (URL_new P relativeURL baseURL))).
    apply hash_set_hash.
Qed.

(** ** The REST turn loop, hop by hop *)

Section RestLoop.
Context (P : Platform) (telemetry : bool).
Context (baseURL : URL) (body : option (gmap string JSON)) (headers : option (gmap string string)).

Local Abbreviation loop := (postWithREST_from P telemetry baseURL body headers).
Local Abbreviation request := (rest_request P baseURL body headers).

(** One iteration of the loop, pulled to the end of the turn. *)
Lemma drain_postWithREST_from_S turns withBody w :
  drain (loop (S turns) withBody) w =
  let '(res, w1) :=
    pRetry P (rest_input P baseURL body headers withBody) onFailedAttempt RETRY_COUNT [] None w in
  match res with
  | inl e => ([], Failed e, trackException telemetry e w1)
  | inr botResponse =>
    let '(acts, c, w3) :=
      drain (if decide (action botResponse = "continue") then loop turns false else Return tt)
        (adopt botResponse w1) in
    (activities botResponse ++ acts, c, w3)
  end.
Proof.
  cbn [postWithREST_from drain].
  destruct (pRetry _ _ _ _ _ _ _) as [[e|botResponse] w1]; [done|].
  cbn [drain]. by rewrite drain_yield_each.
Qed.

(** Induction over the hops of a turn: a property of the drained loop
    holds when it holds at the iteration bound, for a hop whose request
    phase fails, for a hop answered with an action other than "continue",
    and for a hop answered "continue" given the rest of the turn. *)
Lemma postWithREST_from_ind
    (Q : nat -> bool -> World -> list Activity * Completion unit * World -> Prop) :
  (forall withBody w, Q 0 withBody w ([], Completed (Some tt), w)) ->
  (forall turns withBody w failures o e0 e,
     phase_outcomes P (request withBody) w failures o ->
     rest_result o = inl e0 ->
     Q (S turns) withBody w
       ([], Failed e,
        trackException telemetry e
          (add_exchanges (map (pair (request withBody w)) (failures ++ [o])) w))) ->
  (forall turns withBody w failures o botResponse,
     phase_outcomes P (request withBody) w failures o ->
     rest_result o = inr botResponse ->
     action botResponse <> "continue" ->
     Q (S turns) withBody w
       (activities botResponse, Completed (Some tt),
        adopt botResponse
          (add_exchanges (map (pair (request withBody w)) (failures ++ [o])) w))) ->
  (forall turns withBody w failures o botResponse acts c w3,
     phase_outcomes P (request withBody) w failures o ->
     rest_result o = inr botResponse ->
     action botResponse = "continue" ->
     let w2 := adopt botResponse
                 (add_exchanges (map (pair (request withBody w)) (failures ++ [o])) w) in
     drain (loop turns false) w2 = (acts, c, w3) ->
     Q turns false w2 (acts, c, w3) ->
     Q (S turns) withBody w (activities botResponse ++ acts, c, w3)) ->
  forall turns withBody w, Q turns withBody w (drain (loop turns withBody) w).
Proof.
  intros H0 Hfail Hstop Hcont.
  induction turns as [|turns IH]; intros withBody w; [apply H0|].
  rewrite drain_postWithREST_from_S, rest_input_attempt.
  destruct (pRetry_attempt P (request withBody) rest_result RETRY_COUNT [] None w
              (rest_request_reads_id_only P baseURL body headers withBody) I)
    as (failures & o & res & -> & Hfailures & Hlen & Hout & Hset).
  assert (Hphase : phase_outcomes P (request withBody) w failures o).
  { split_and!; [|done|done]. eapply Forall_impl; [exact Hfailures|]. by intros ? [? _]. }
  unfold settled in Hset.
  destruct (rest_result o) as [e0|botResponse] eqn:Hres.
  - assert (exists e, res = inl e) as [e ->].
    { destruct (transport_failure o); [by destruct Hset as [_ ?]|eauto]. }
    by eapply Hfail.
  - subst res. destruct (decide (action botResponse = "continue")) as [Hc|Hc].
    + destruct (drain (loop turns false) _) as [[acts c] w3] eqn:Hrest.
      eapply Hcont; [done..|]. rewrite <- Hrest. apply IH.
    + cbn [drain]. rewrite app_nil_r. by eapply Hstop.
Qed.

Lemma exchanges_adopt botResponse w : exchanges (adopt botResponse w) = exchanges w.
Proof. unfold adopt. by destruct (truthy _). Qed.

Lemma requests_adopt botResponse w : requests (adopt botResponse w) = requests w.
Proof. unfold requests. by rewrite exchanges_adopt. Qed.
End RestLoop.

(** ** Turns *)

Section TurnFacts.
Context (P : Platform) (strategy : Strategy) (telemetry : bool).

(** A turn first consults the strategy, once, then posts. *)
Lemma drain_turn_gen t w :
  drain (turn_gen P strategy telemetry t) w =
  if turn_allowed t w then
    match turn_prepare strategy t (length (strategy_calls w)) with
    | inl e => ([], Failed e, add_strategy_call (turn_call t) w)
    | inr prep =>
      drain (post P telemetry (prep_baseURL prep) (Some (turn_body t prep))
               (prep_headers prep) (prep_transport prep))
        (add_strategy_call (turn_call t) w)
    end
  else ([], Failed not_started, w).
Proof.
  destruct t as [emit|activity]; cbn [turn_gen turn_allowed turn_prepare turn_call turn_body].
  - unfold startNewConversation. cbn [drain].
    by destruct (prepareStartNewConversation strategy _).
  - unfold executeTurn. cbn [drain].
    destruct (truthy (this_conversationId w)); [|done]. cbn [drain].
    by destruct (prepareExecuteTurn strategy _).
Qed.

(** The event-stream reader sends nothing. *)
Lemma exchanges_sse_activities events w :
  exchanges (drain (sse_activities events) w).2 = exchanges w.
Proof.
  revert w. induction events as [|ev events IH]; intros w; [done|].
  cbn [sse_activities]. destruct (decide (event ev = Some "end")); [done|].
  destruct (decide (event ev = Some "activity")); [|apply IH].
  destruct (data ev) as [err|activity]; [done|]. cbn [drain].
  destruct (truthy (this_conversationId w)).
  - cbn [drain]. specialize (IH w). by destruct (drain (sse_activities events) w) as [[??]?].
  - destruct (act_conversation activity) as [id|]; [|done]. cbn [drain].
    specialize (IH (set_conversationId id w)).
    by destruct (drain (sse_activities events) (set_conversationId id w)) as [[??]?].
Qed.

End TurnFacts.

Lemma URL_eta (u : URL) :
  u = {| origin := origin u; pathname := pathname u; query := query u; fragment := fragment u |}.
Proof. by destruct u. Qed.

Lemma resolveURLWithQueryAndHash_expected (P : Platform) (baseURL : URL) (id : option string) :
  resolveURLWithQueryAndHash P ("conversations/" +:+ default "" id) baseURL
  = expected_url P baseURL id.
Proof.
  destruct (resolveURLWithQueryAndHash_spec P ("conversations/" +:+ default "" id) baseURL)
    as (Ho & Hp & Hq & Hf & _).
  rewrite (URL_eta (resolveURLWithQueryAndHash _ _ _)). unfold expected_url. cbv zeta.
  by rewrite Ho, Hp, Hq, Hf.
Qed.

Lemma expected_url_search_hash (P : Platform) (baseURL : URL) (id : option string) :
  search (expected_url P baseURL id) = search baseURL
  /\ hash (expected_url P baseURL id) = hash baseURL.
Proof.
  rewrite <- resolveURLWithQueryAndHash_expected.
  destruct (resolveURLWithQueryAndHash_spec P ("conversations/" +:+ default "" id) baseURL)
    as (_ & _ & _ & _ & Hs & Hh).
  done.
Qed.

(** The attempt of a REST hop accepts exactly what the service answered. *)
Lemma answered_rest_result o :
  answered o = match rest_result o with inr botResponse => Some botResponse | inl _ => None end.
Proof.
  destruct o as [e|r]; [done|]. unfold answered, rest_result.
  destruct (ok r); [|done]. by destruct (json r).
Qed.

Lemma id_answered_transport_failure id o : transport_failure o = true -> id_answered id o = id.
Proof.
  intros [e He]%rest_result_transport_failure. unfold id_answered.
  by rewrite answered_rest_result, He.
Qed.

Lemma this_conversationId_adopt_answered o botResponse w :
  rest_result o = inr botResponse ->
  this_conversationId (adopt botResponse w) = id_answered (this_conversationId w) o.
Proof.
  intros Hres. unfold adopt, id_answered. rewrite answered_rest_result, Hres.
  by destruct (truthy _).
Qed.

Section RequestURLs.
Context (P : Platform) (telemetry : bool).
Context (baseURL : URL) (body : option (gmap string JSON)) (headers : option (gmap string string)).
Context (transport : option Transport).

Lemma urls_follow_id_app id xs ys :
  urls_follow_id P baseURL transport id (xs ++ ys) <->
  urls_follow_id P baseURL transport id xs
  /\ urls_follow_id P baseURL transport
       (fold_left (id_after_exchange transport) (map snd xs) id) ys.
Proof.
  revert id. induction xs as [|x xs IH]; intros id; cbn [app urls_follow_id map fold_left].
  - tauto.
  - rewrite IH. tauto.
Qed.

(** The attempts of one request phase: one request, sent again while the
    conversation id stays. *)
Lemma phase_urls_follow_id req id failures o :
  req_url req = expected_url P baseURL id ->
  Forall (fun o' => id_after_exchange transport id o' = id) failures ->
  let xs := map (pair req) (failures ++ [o]) in
  urls_follow_id P baseURL transport id xs
  /\ fold_left (id_after_exchange transport) (map snd xs) id
     = id_after_exchange transport id o.
Proof.
  intros Hurl Hfailures. cbv zeta.
  induction Hfailures as [|o' failures Ho' _ IH];
    cbn [app map urls_follow_id fold_left fst snd].
  - done.
  - rewrite Ho'. tauto.
Qed.

Lemma rest_urls_follow_id turns withBody w :
  transport <> Some ServerSentEvents ->
  exists new,
    exchanges (drain (postWithREST_from P telemetry baseURL body headers turns withBody) w).2
      = exchanges w ++ new
    /\ urls_follow_id P baseURL transport (this_conversationId w) new.
Proof.
  intros Htransport.
  assert (Hstep : forall id o, id_after_exchange transport id o = id_answered id o).
  { intros id o. unfold id_after_exchange. by destruct transport as [[]|]. }
  assert (Hphase : forall withBody w failures o,
    Forall (fun o' => transport_failure o' = true) failures ->
    let xs := map (pair (rest_request P baseURL body headers withBody w)) (failures ++ [o]) in
    urls_follow_id P baseURL transport (this_conversationId w) xs
    /\ fold_left (id_after_exchange transport) (map snd xs) (this_conversationId w)
       = id_answered (this_conversationId w) o).
  { intros withBody' w' failures o Hfailures. cbv zeta. rewrite <- Hstep.
    apply phase_urls_follow_id.
    - apply resolveURLWithQueryAndHash_expected.
    - eapply Forall_impl; [exact Hfailures|]. intros o' Ho'. cbv beta.
      rewrite Hstep. by apply id_answered_transport_failure. }
  revert turns withBody w.
  apply (postWithREST_from_ind P telemetry baseURL body headers
           (fun _ _ w res => exists new,
              exchanges res.2 = exchanges w ++ new
              /\ urls_follow_id P baseURL transport (this_conversationId w) new)).
  - intros _ w. exists []. by rewrite app_nil_r.
  - intros turns withBody w failures o e0 e (Hfailures & _ & _) _.
    destruct (Hphase withBody w failures o Hfailures) as [Hfollow _].
    eexists. split; [|exact Hfollow]. cbn [snd]. by rewrite exchanges_trackException.
  - intros turns withBody w failures o botResponse (Hfailures & _ & _) _ _.
    destruct (Hphase withBody w failures o Hfailures) as [Hfollow _].
    eexists. split; [|exact Hfollow]. cbn [snd]. by rewrite exchanges_adopt.
  - intros turns withBody w failures o botResponse acts c w3 (Hfailures & _ & _) Hres _ w2 _
      (new & Hnew & Hfollow2).
    destruct (Hphase withBody w failures o Hfailures) as [Hfollow Hid].
    assert (Hw2 : this_conversationId w2 = id_answered (this_conversationId w) o)
      by (unfold w2; by rewrite (this_conversationId_adopt_answered o)).
    cbn [snd] in *. eexists. split.
    + rewrite Hnew. unfold w2. rewrite exchanges_adopt. cbn [add_exchanges exchanges].
      by rewrite <- app_assoc.
    + apply urls_follow_id_app. split; [done|]. by rewrite Hid, <- Hw2.
Qed.

Lemma sse_urls_follow_id w :
  transport = Some ServerSentEvents ->
  exists new,
    exchanges (drain (postWithServerSentEvents P telemetry baseURL body headers) w).2
      = exchanges w ++ new
    /\ urls_follow_id P baseURL transport (this_conversationId w) new.
Proof.
  intros Htransport. unfold postWithServerSentEvents. cbn [drain]. rewrite sse_input_attempt.
  destruct (pRetry_attempt P (sse_request P baseURL body headers) sse_result RETRY_COUNT [] None w
              (sse_request_reads_id_only P baseURL body headers) I)
    as (failures & o & res & -> & _).
  eexists. split.
  - destruct res as [e|events]; cbn [drain snd].
    + by rewrite exchanges_trackException.
    + by rewrite exchanges_sse_activities.
  - apply phase_urls_follow_id.
    + apply resolveURLWithQueryAndHash_expected.
    + apply Forall_true. intros o'. unfold id_after_exchange. by rewrite Htransport.
Qed.
End RequestURLs.

(** C6, amended.  Every HTTP request of a turn -- the first hop, the
    continuation hops and the retried attempts, over REST or server-sent
    events, for [startNewConversation] as for [executeTurn] -- goes to the
    URL obtained by resolving 'conversations/' followed by the conversation
    id the engine holds when the request is sent, or by nothing when it
    holds none, against the base URL the strategy supplied for this turn,
    the query and the fragment then overwritten by those of the base URL:
    a query or fragment that is not empty is carried over as it is, an
    empty one is dropped, so that [search] and [hash] are the base URL's.
    The id is the one the engine holds when the turn begins, then, over
    REST, the one the last bot response carried.  A turn that the strategy
    fails sends nothing.  For the base URL http://host/?api=start#1 and
    the id c-1 every request goes to
    http://host/conversations/c-1?api=start#1. *)
Theorem request_url_follows_base_and_conversation
    (P : Platform) (strategy : Strategy) (telemetry : bool) (t : Turn) (w : World) :
  (exists new,
     exchanges (drain (turn_gen P strategy telemetry t) w).2 = exchanges w ++ new
     /\ match turn_prepare strategy t (length (strategy_calls w)) with
        | inr prep =>
          urls_follow_id P (prep_baseURL prep) (prep_transport prep) (this_conversationId w) new
        | inl _ => new = []
        end)
  /\ (forall baseURL id,
        search (expected_url P baseURL id) = search baseURL
        /\ hash (expected_url P baseURL id) = hash baseURL)
  /\ (let w' := (drain (executeTurn offline (strategy_at host_api_start Rest) false morning)
                   (set_conversationId (Some "c-1") new_world)).2 in
      map (fun x => href (req_url x.1)) (exchanges w')
      = replicate 5 "http://host/conversations/c-1?api=start#1").
Proof.
  split_and!; [|apply expected_url_search_hash|vm_compute; reflexivity].
  rewrite drain_turn_gen.
  destruct (turn_allowed t w).
  2:{ exists []. split; [by rewrite app_nil_r|]. by destruct (turn_prepare _ _ _). }
  destruct (turn_prepare strategy t (length (strategy_calls w))) as [e|prep].
  { exists []. split; [by rewrite app_nil_r|done]. }
  unfold post, postWithREST.
  change (this_conversationId w)
    with (this_conversationId (add_strategy_call (turn_call t) w)).
  change (exchanges w) with (exchanges (add_strategy_call (turn_call t) w)).
  destruct (prep_transport prep) as [[]|] eqn:Htransport.
  - by apply rest_urls_follow_id.
  - by apply sse_urls_follow_id.
  - by apply rest_urls_follow_id.
Qed.

(** C6 as stated fails for a base URL with an empty query or an empty
    fragment.  The strategy answers http://host/?#; the five attempts of
    the first turn go to http://host/conversations/, not to
    http://host/conversations/?#: the query and the fragment of the base
    URL are not taken over as they are. *)
Lemma request_url_drops_empty_query_and_hash :
  let w' := (drain (startNewConversation offline
                      (strategy_at host_empty_query_and_hash Rest) false true) new_world).2 in
  href host_empty_query_and_hash = "http://host/?#"
  /\ href (verbatim_url offline host_empty_query_and_hash None) = "http://host/conversations/?#"
  /\ map (fun x => href (req_url x.1)) (exchanges w') = replicate 5 "http://host/conversations/"
  /\ ~ (forall x, x ∈ exchanges w' ->
          exists id, req_url x.1 = verbatim_url offline host_empty_query_and_hash id).
Proof.
  intros w'. split_and!; [vm_compute; reflexivity..|].
  intros Hall.
  assert (exists x rest, exchanges w' = x :: rest /\ query (req_url x.1) = None)
    as (x & rest & Hx & Hquery).
  { eexists _, _. split; vm_compute; reflexivity. }
  destruct (Hall x) as [id Hid]; [rewrite Hx; apply list_elem_of_here|].
  rewrite Hid in Hquery. discriminate Hquery.
Qed.

Lemma rest_success_transport_failure o : transport_failure o = true -> rest_success o = false.
Proof.
  intros [e He]%rest_result_transport_failure. unfold rest_success. by rewrite He.
Qed.


Lemma answers_continue_rest_result o :
  answers_continue o ->
  exists botResponse,
    rest_result o = inr botResponse /\ action botResponse = "continue"
    /\ transport_failure o = false.
Proof.
  intros (r & botResponse & -> & Hok & Hjson & Haction).
  exists botResponse. unfold rest_result, transport_failure. rewrite Hok. split_and!; try done.
  unfold ok in Hok. apply andb_true_iff in Hok as [_ Hle%Nat.leb_le].
  apply Nat.leb_gt. lia.
Qed.

(** A turn over a service that always answers "continue" runs until the
    loop's bound: one exchange per iteration, every activity passed on. *)
Lemma always_continue (P : Platform) (telemetry : bool) (baseURL : URL)
    (body : option (gmap string JSON)) (headers : option (gmap string string))
    (turns : nat) (withBody : bool) (w : World) :
  (forall req l, answers_continue (fetch_outcome P (requests w ++ req :: l))) ->
  exists new w',
    drain (postWithREST_from P telemetry baseURL body headers turns withBody) w
      = (concat (map (fun x => received x.2) new), Completed (Some tt), w')
    /\ exchanges w' = exchanges w ++ new
    /\ length new = turns.
Proof.
  revert turns withBody w.
  apply (postWithREST_from_ind P telemetry baseURL body headers
           (fun turns _ w res =>
              (forall req l, answers_continue (fetch_outcome P (requests w ++ req :: l))) ->
              exists new w',
                res = (concat (map (fun x => received x.2) new), Completed (Some tt), w')
                /\ exchanges w' = exchanges w ++ new
                /\ length new = turns)).
  - intros _ w _. exists [], w. by rewrite app_nil_r.
  - intros turns withBody w failures o e0 e (_ & _ & Hout) Hres Hserver. exfalso.
    pose proof (Hout (length failures) o ltac:(by rewrite lookup_app_r, Nat.sub_diag by lia)) as Ho.
    cbn [replicate] in Ho.
    destruct (answers_continue_rest_result o) as (botResponse & Hres' & _);
      [rewrite Ho; apply Hserver|congruence].
  - intros turns withBody w failures o botResponse (_ & _ & Hout) Hres Hstop Hserver. exfalso.
    pose proof (Hout (length failures) o ltac:(by rewrite lookup_app_r, Nat.sub_diag by lia)) as Ho.
    cbn [replicate] in Ho.
    destruct (answers_continue_rest_result o) as (botResponse' & Hres' & Hc & _);
      [rewrite Ho; apply Hserver|congruence].
  - intros turns withBody w failures o botResponse acts c w3 (Hfailures & _ & Hout) Hres _ w2 _ IH Hserver.
    assert (failures = []) as ->.
    { destruct failures as [|f failures]; [done|]. exfalso.
      apply Forall_cons in Hfailures as [Hf _].
      pose proof (Hout 0 f eq_refl) as Hf0. cbn [replicate] in Hf0.
      destruct (answers_continue_rest_result f) as (? & _ & _ & Hntf);
        [rewrite Hf0; apply Hserver|congruence]. }
    cbn [app map] in *.
    destruct IH as (new & w' & [= -> -> ->] & Hnew & Hlen).
    { intros req l. unfold w2. rewrite requests_adopt, requests_add_exchanges.
      cbn [map fst]. rewrite <- app_assoc. apply Hserver. }
    exists ((rest_request P baseURL body headers withBody w, o) :: new), w'. split_and!.
    + assert (received o = activities botResponse) as Hrecv
        by (unfold received; by rewrite Hres).
      cbn [map concat snd]. by rewrite Hrecv.
    + rewrite Hnew. unfold w2. rewrite exchanges_adopt. cbn [add_exchanges exchanges].
      by rewrite <- app_assoc.
    + cbn [length]. by rewrite Hlen.
Qed.

Lemma successes_app xs ys : successes (xs ++ ys) = successes xs + successes ys.
Proof. unfold successes. by rewrite List.filter_app, length_app. Qed.

Lemma successes_retried (req : Request) (failures : list FetchOutcome) :
  Forall (fun o => transport_failure o = true) failures ->
  successes (map (pair req) failures) = 0.
Proof.
  induction 1 as [|o failures Ho _ IH]; [done|].
  unfold successes in *. cbn [map List.filter snd].
  by rewrite (rest_success_transport_failure o Ho).
Qed.

(** Whatever the service answers, a REST turn has at most as many accepted
    exchanges as the loop has iterations: retried attempts apart, the turn
    makes at most MAX_TURN exchanges. *)
Lemma rest_turn_successes_bounded (P : Platform) (telemetry : bool) (baseURL : URL)
    (body : option (gmap string JSON)) (headers : option (gmap string string))
    (turns : nat) (withBody : bool) (w : World) :
  exists new,
    exchanges (drain (postWithREST_from P telemetry baseURL body headers turns withBody) w).2
      = exchanges w ++ new
    /\ successes new <= turns.
Proof.
  revert turns withBody w.
  apply (postWithREST_from_ind P telemetry baseURL body headers
           (fun turns _ w res =>
              exists new, exchanges res.2 = exchanges w ++ new /\ successes new <= turns)).
  - intros _ w. exists []. split; [by rewrite app_nil_r|done].
  - intros turns withBody w failures o e0 e (Hfailures & _ & _) Hres. eexists. split.
    + cbn [snd]. by rewrite exchanges_trackException.
    + rewrite map_app, successes_app, successes_retried by done.
      unfold successes, rest_success. cbn [map List.filter snd]. rewrite Hres. cbn. lia.
  - intros turns withBody w failures o botResponse (Hfailures & _ & _) Hres _. eexists. split.
    + cbn [snd]. by rewrite exchanges_adopt.
    + rewrite map_app, successes_app, successes_retried by done.
      unfold successes, rest_success. cbn [map List.filter snd]. rewrite Hres. cbn. lia.
  - intros turns withBody w failures o botResponse acts c w3 (Hfailures & _ & _) Hres _ w2 _
      (new & Hnew & Hbound).
    cbn [snd] in *. eexists. split.
    + rewrite Hnew. unfold w2. rewrite exchanges_adopt. cbn [add_exchanges exchanges].
      by rewrite <- app_assoc.
    + rewrite successes_app, map_app, successes_app, successes_retried by done.
      unfold successes at 1, rest_success. cbn [map List.filter snd]. rewrite Hres. cbn. lia.
Qed.

Lemma below_500_transport_failure o : below_500 o = negb (transport_failure o).
Proof.
  destruct o as [e|r]; [done|]. unfold below_500, transport_failure.
  destruct (Nat.ltb_spec (status r) 500), (Nat.leb_spec 500 (status r)); [lia|done|done|lia].
Qed.

Lemma delivered_rest_result o :
  delivered o
  = match rest_result o with inr botResponse => activities botResponse | inl _ => [] end.
Proof. unfold delivered. rewrite answered_rest_result. by destruct (rest_result o). Qed.

Lemma delivered_received o : delivered o = received o.
Proof. by rewrite delivered_rest_result. Qed.

Lemma exchanges_below_500_app xs ys :
  exchanges_below_500 (xs ++ ys) = exchanges_below_500 xs + exchanges_below_500 ys.
Proof. unfold exchanges_below_500. by rewrite List.filter_app, length_app. Qed.

(** One request phase: at most five exchanges, of which only the last can
    be answered below 500 and only the last can deliver activities. *)
Lemma phase_account (req : Request) (failures : list FetchOutcome) (o : FetchOutcome) :
  Forall (fun o' => transport_failure o' = true) failures ->
  length failures <= RETRY_COUNT ->
  let xs := map (pair req) (failures ++ [o]) in
  exchanges_below_500 xs <= 1
  /\ length xs <= 5
  /\ concat (map (fun x : Request * FetchOutcome => delivered x.2) xs) = delivered o.
Proof.
  intros Hfailures Hlen. cbv zeta. split_and!.
  - rewrite map_app, exchanges_below_500_app.
    assert (exchanges_below_500 (map (pair req) failures) = 0) as ->.
    { clear Hlen. induction Hfailures as [|o' failures Ho' _ IH]; [done|].
      unfold exchanges_below_500 in *. cbn [map List.filter snd].
      by rewrite below_500_transport_failure, Ho'. }
    unfold exchanges_below_500. cbn [map List.filter snd].
    destruct (below_500 o); cbn [length]; lia.
  - rewrite length_map, length_app. cbn [length]. unfold RETRY_COUNT in Hlen. lia.
  - rewrite map_app, map_app, concat_app.
    assert (concat (map (fun x : Request * FetchOutcome => delivered x.2)
                      (map (pair req) failures)) = []) as ->.
    { clear Hlen. induction Hfailures as [|o' failures Ho' _ IH]; [done|].
      cbn [map concat snd]. rewrite IH, delivered_rest_result.
      destruct (rest_result_transport_failure o' Ho') as [e ->]. done. }
    cbn [map concat snd app]. by rewrite app_nil_r.
Qed.

(** The account of a REST turn, whatever the service answers: at most one
    exchange answered below 500 and at most five exchanges for each
    iteration of the loop, and the activities yielded are those the
    exchanges delivered. *)
Lemma rest_turn_account (P : Platform) (telemetry : bool) (baseURL : URL)
    (body : option (gmap string JSON)) (headers : option (gmap string string))
    (turns : nat) (withBody : bool) (w : World) :
  exists new,
    exchanges (drain (postWithREST_from P telemetry baseURL body headers turns withBody) w).2
      = exchanges w ++ new
    /\ exchanges_below_500 new <= turns
    /\ length new <= 5 * turns
    /\ (drain (postWithREST_from P telemetry baseURL body headers turns withBody) w).1.1
       = concat (map (fun x => delivered x.2) new).
Proof.
  revert turns withBody w.
  apply (postWithREST_from_ind P telemetry baseURL body headers
           (fun turns _ w res =>
              exists new, exchanges res.2 = exchanges w ++ new
              /\ exchanges_below_500 new <= turns
              /\ length new <= 5 * turns
              /\ res.1.1 = concat (map (fun x => delivered x.2) new))).
  - intros _ w. exists []. split_and!; [by rewrite app_nil_r|done..].
  - intros turns withBody w failures o e0 e (Hfailures & Hlen & _) Hres.
    destruct (phase_account (rest_request P baseURL body headers withBody w) failures o
                Hfailures Hlen) as (Hbelow & Hfetches & Hacts).
    eexists. split_and!.
    + cbn [snd]. by rewrite exchanges_trackException.
    + lia.
    + lia.
    + rewrite Hacts, delivered_rest_result, Hres. done.
  - intros turns withBody w failures o botResponse (Hfailures & Hlen & _) Hres _.
    destruct (phase_account (rest_request P baseURL body headers withBody w) failures o
                Hfailures Hlen) as (Hbelow & Hfetches & Hacts).
    eexists. split_and!.
    + cbn [snd]. by rewrite exchanges_adopt.
    + lia.
    + lia.
    + rewrite Hacts, delivered_rest_result, Hres. done.
  - intros turns withBody w failures o botResponse acts c w3 (Hfailures & Hlen & _) Hres _ w2 _
      (new & Hnew & Hbelow2 & Hfetches2 & Hacts2).
    destruct (phase_account (rest_request P baseURL body headers withBody w) failures o
                Hfailures Hlen) as (Hbelow & Hfetches & Hacts).
    cbn [fst snd] in *. eexists. split_and!.
    + rewrite Hnew. unfold w2. rewrite exchanges_adopt. cbn [add_exchanges exchanges].
      by rewrite <- app_assoc.
    + rewrite exchanges_below_500_app. lia.
    + rewrite length_app. lia.
    + rewrite map_app, concat_app, Hacts, delivered_rest_result, Hres, Hacts2. done.
Qed.

(** C8, amended.  A REST turn runs at most MAX_TURN = 1,000 iterations,
    each ended by one HTTP exchange: whatever the service answers, at most
    1,000 exchanges of a turn are answered with a status below 500, and,
    each iteration making at most five attempts, the turn makes at most
    5,000 exchanges in all; the activities the turn yields are those the
    exchanges delivered, in order.  Over a service that answers every
    request 2xx with the action "continue", the turn makes exactly 1,000
    exchanges and its activity sequence ends cleanly, without an error,
    after the 1,000th response, having yielded, in the order received, the
    activities of all 1,000 responses. *)
Theorem rest_turn_ends_after_1000_iterations
    (P : Platform) (telemetry : bool) (baseURL : URL)
    (body : option (gmap string JSON)) (headers : option (gmap string string)) (w : World) :
  (exists new,
     exchanges (drain (postWithREST P telemetry baseURL body headers) w).2 = exchanges w ++ new
     /\ exchanges_below_500 new <= 1000
     /\ length new <= 5000
     /\ (drain (postWithREST P telemetry baseURL body headers) w).1.1
        = concat (map (fun x => delivered x.2) new))
  /\ ((forall req l, answers_continue (fetch_outcome P (requests w ++ req :: l))) ->
      exists new w',
        drain (postWithREST P telemetry baseURL body headers) w
          = (concat (map (fun x => delivered x.2) new), Completed (Some tt), w')
        /\ exchanges w' = exchanges w ++ new
        /\ length new = 1000).
Proof.
  unfold postWithREST. split.
  - destruct (rest_turn_account P telemetry baseURL body headers MAX_TURN true w)
      as (new & Hnew & Hbelow & Hfetches & Hacts).
    exists new. unfold MAX_TURN in Hbelow, Hfetches. split_and!; [done|lia|lia|done].
  - intros Hserver.
    destruct (always_continue P telemetry baseURL body headers MAX_TURN true w Hserver)
      as (new & w' & Hdrain & Hnew & Hlen).
    exists new, w'. split_and!; [|done|done].
    rewrite Hdrain. do 2 f_equal. f_equal. apply map_ext. intros x. by rewrite delivered_received.
Qed.

(** C8 as stated fails when attempts are retried.  The service answers
    every other request 503: each of the 1,000 iterations of one REST turn
    makes two exchanges, the turn ends cleanly after 2,000 HTTP exchanges
    and 1,000 activities. *)
Lemma rest_turn_of_2000_exchanges :
  let res := drain (postWithREST service_503_then_continue false http_test None None)
               new_world in
  res.1.2 = Completed (Some tt)
  /\ length res.1.1 = 1000
  /\ length (exchanges res.2) = 2000
  /\ ~ (length (exchanges res.2) <= 1000).
Proof.
  intros res.
  assert (Hres : res.1.2 = Completed (Some tt) /\ length res.1.1 = 1000
                 /\ length (exchanges res.2) = 2000).
  { vm_compute. repeat split. }
  destruct Hres as (Hc & Hacts & Hlen). split_and!; [done..|]. rewrite Hlen. lia.
Qed.

(** ** The conversation id *)


(** C2 fails on the REST path.  An engine whose conversation id is c-00001
    executes a turn over REST; the bot response carries the conversation id
    c-00002; after the turn the engine's id is c-00002.  (The
    server-sent-events path keeps the id: [sse_keeps_conversationId].) *)
Theorem rest_response_overwrites_conversationId :
  let w := set_conversationId (Some "c-00001") new_world in
  let w' := (drain (executeTurn renaming_service (fixed_strategy Rest) false morning) w).2 in
  this_conversationId w = Some "c-00001"
  /\ this_conversationId w' = Some "c-00002"
  /\ length (exchanges w') = 1.
Proof. vm_compute. repeat split. Qed.

(** ** Turn handles *)

Section Handles.
Context {S : Type} `{HalfDuplexChatAdapterAPI S}.

Lemma flags_grow_refl (w : Adapter S) : flags_grow w w.
Proof. by intros h. Qed.

Lemma flags_grow_trans (w1 w2 w3 : Adapter S) :
  flags_grow w1 w2 -> flags_grow w2 w3 -> flags_grow w1 w3.
Proof. intros H12 H23 h. destruct (H12 h), (H23 h). auto. Qed.

Lemma call_flags_grow h activity w : flags_grow w (call h activity w).2.
Proof.
  unfold call. destruct (obsoleted w !! h) as [[]|] eqn:Hh; try apply flags_grow_refl.
  destruct (api_executeTurn activity _) as [[e|activities] s]; cbn [snd];
    (intros h'; cbn [set_api set_obsoleted obsoleted]; split;
     [ intros Hsome; apply lookup_lt_is_Some; rewrite length_insert;
       by apply lookup_lt_is_Some
     | intros Htrue; destruct (decide (h = h')) as [<-|Hne];
       [congruence | by rewrite list_lookup_insert_ne] ]).
Qed.

Lemma next_turnGenerator_flags_grow (activities : Gen S unit) w :
  flags_grow w (next (turnGenerator activities) w).2.
Proof.
  unfold turnGenerator. revert w.
  induction activities as [r|e|a k IH|k IH|s k IH|]; intros w; cbn [lift bind next snd];
    try apply flags_grow_refl.
  - intros h. cbn [set_obsoleted obsoleted]. split.
    + intros [b Hb]. exists b. by apply lookup_app_l_Some.
    + intros Hb. by apply lookup_app_l_Some.
  - apply IH.
  - apply (IH (set_api s w)).
Qed.

Lemma adapter_steps_flags_grow w w' : rtc adapter_step w w' -> flags_grow w w'.
Proof.
  induction 1 as [w|w1 w2 w3 Hstep _ IH]; [apply flags_grow_refl|].
  eapply flags_grow_trans; [|exact IH].
  destruct Hstep; [apply call_flags_grow|apply next_turnGenerator_flags_grow].
Qed.

(** A closure whose [obsoleted] is set rejects, and does nothing else. *)
Lemma call_obsoleted h activity w :
  obsoleted w !! h = Some true -> call h activity w = (inl obsoleted_error, w).
Proof. intros Hh. unfold call. by rewrite Hh. Qed.

(** Whatever a call of an existing closure does, it sets [obsoleted]. *)
Lemma call_sets_obsoleted h activity w :
  is_Some (obsoleted w !! h) -> obsoleted (call h activity w).2 !! h = Some true.
Proof.
  intros [b Hb]. unfold call. rewrite Hb. destruct b; [done|].
  destruct (api_executeTurn activity _) as [[e|activities] s]; cbn [snd set_api set_obsoleted obsoleted];
    apply list_lookup_insert_eq; by eapply lookup_lt_Some.
Qed.

(** The closure a turn generator returns at its end is new, and not
    obsoleted. *)
Lemma next_turnGenerator_returns (activities : Gen S unit) w h g w' :
  next (turnGenerator activities) w = (IDone (Some h), g, w') ->
  obsoleted w' !! h = Some false.
Proof.
  unfold turnGenerator. revert w.
  induction activities as [r|e|a k IH|k IH|s k IH|]; intros w; cbn [lift bind next]; try done.
  - intros [= <- <- <-]. cbn [set_obsoleted obsoleted]. by apply list_lookup_middle.
  - apply IH.
  - apply (IH (set_api s w)).
Qed.
End Handles.

(** C1. A turn handle yielded as the terminal value of a turn stream can be
    invoked with success at most once.  Its first invocation is not turned
    away: it resolves or rejects as the engine's [executeTurn] does, and
    resolves to a new turn stream when that returns one.  Whatever happens
    to the adapter before and after, once the handle has been invoked every
    later invocation rejects with
    'This executeTurn() function is obsoleted. Please use a new one.' and
    changes nothing. *)
Theorem turn_handle_single_use
    {S : Type} `{HalfDuplexChatAdapterAPI S}
    (activities : Gen S unit) (w0 w1 : Adapter S) (h : ExecuteTurnFunction)
    (g : TurnGenerator S) :
  next (turnGenerator activities) w0 = (IDone (Some h), g, w1) ->
  (forall activity,
     (call h activity w1).1 =
     match (api_executeTurn activity (api w1)).1 with
     | inl e => inl e
     | inr stream => inr (turnGenerator stream)
     end)
  /\ (forall activity w2 w3 activity',
        rtc adapter_step w1 w2 ->
        rtc adapter_step (call h activity w2).2 w3 ->
        call h activity' w3
        = (inl (MkError "This executeTurn() function is obsoleted. Please use a new one."), w3)).
Proof.
  intros Hh%next_turnGenerator_returns. split.
  - intros activity. unfold call. rewrite Hh.
    by destruct (api_executeTurn activity _) as [[e|stream] s].
  - intros activity w2 w3 activity' H12 H23.
    apply call_obsoleted.
    apply (adapter_steps_flags_grow _ _ H23).
    apply call_sets_obsoleted.
    apply (adapter_steps_flags_grow _ _ H12). by rewrite Hh.
Qed.

(** C10. The handle sets its [obsoleted] flag before it calls the engine's
    [executeTurn], so its first invocation uses it up whatever comes of it.
    When [executeTurn] rejects, the invocation rejects with the engine's
    error without having produced a stream, and the flag is set all the
    same.  Every later invocation, whatever happened to the adapter
    meanwhile (the stream of the first invocation may have been pulled and
    have thrown because its request phase failed), rejects with the
    obsoletion error and leaves the engine as it is: the failed turn is not
    sent again through this handle. *)
Theorem failed_invocation_obsoletes_handle
    {S : Type} `{HalfDuplexChatAdapterAPI S}
    (h : ExecuteTurnFunction) (activity : Activity) (w : Adapter S) :
  obsoleted w !! h = Some false ->
  let w' := (call h activity w).2 in
  obsoleted w' !! h = Some true
  /\ (forall e s,
        api_executeTurn activity (api w) = (inl e, s) ->
        call h activity w = (inl e, w') /\ api w' = s)
  /\ (forall w'' activity',
        rtc adapter_step w' w'' ->
        call h activity' w'' = (inl obsoleted_error, w'')
        /\ message obsoleted_error
           = "This executeTurn() function is obsoleted. Please use a new one.").
Proof.
  intros Hh w'.
  assert (Hset : obsoleted w' !! h = Some true).
  { apply call_sets_obsoleted. by rewrite Hh. }
  split_and!.
  - done.
  - intros e s Hfail. unfold w', call. rewrite Hh. cbn [set_obsoleted api].
    by rewrite Hfail.
  - intros w'' activity' Hsteps. split; [|done]. apply call_obsoleted.
    by apply (adapter_steps_flags_grow _ _ Hsteps).
Qed.

(** ** The facade *)

Section Facade.
Context (execute : nat -> Activity -> ExecuteOutcome).

(** While no error is cached, [connectionStatus$] has emitted nothing
    new. *)
Lemma postActivity_no_error activity f :
  cachedError (postActivity execute activity f).2 = None ->
  cachedError f = None
  /\ connectionStatus_observations (postActivity execute activity f).2
     = connectionStatus_observations f.
Proof.
  unfold postActivity. destruct (cachedError f) as [e|] eqn:Hf.
  - cbn [snd]. congruence.
  - by destruct (execute _ _).
Qed.

Lemma postActivities_no_error posted f :
  cachedError (postActivities execute posted f).2 = None ->
  cachedError f = None
  /\ connectionStatus_observations (postActivities execute posted f).2
     = connectionStatus_observations f.
Proof.
  revert f. induction posted as [|activity posted IH]; intros f; [done|].
  cbn [postActivities].
  destruct (postActivity execute activity f) as [obs f'] eqn:Hpost.
  specialize (IH f'). destruct (postActivities execute posted f') as [obss f''].
  cbn [snd] in *. intros Hnone. destruct (IH Hnone) as [Hf' Hstatus].
  pose proof (postActivity_no_error activity f) as Hstep. rewrite Hpost in Hstep.
  cbn [snd] in Hstep. destruct (Hstep Hf') as [Hf Hstatus']. split; [done|]. congruence.
Qed.

(** Once an error is cached, every post errors with it and changes
    nothing. *)
Lemma postActivities_cached posted f e :
  cachedError f = Some e ->
  postActivities execute posted f = (map (fun _ => [ObsStart; ObsError e]) posted, f).
Proof.
  intros Hf. induction posted as [|activity posted IH]; [done|].
  cbn [postActivities map]. unfold postActivity at 1. rewrite Hf. by rewrite IH.
Qed.
End Facade.

(** C9.  When the [execute] callable throws, synchronously or through a
    rejected promise, on a posted activity: the subscriber of that
    [postActivity] call gets the thrown error; [connectionStatus$] has
    emitted, in order, Uninitialized, Connecting, Online, FailedToConnect
    and then completed; [activity$] completes (and has emitted nothing when
    there were no activities before, as in the test); and every later
    [postActivity] call errors with the same, cached, error. *)
Theorem postActivity_rejects_when_execute_throws
    (execute : nat -> Activity -> ExecuteOutcome)
    (initialActivities : list Activity) (earlier : list Activity)
    (activity : Activity) (e : Error) :
  let f0 := (postActivities execute earlier (connect initialActivities)).2 in
  cachedError f0 = None ->
  thrown (execute (execute_calls f0) activity) = Some e ->
  let f1 := (postActivity execute activity f0).2 in
  (postActivity execute activity f0).1 = [ObsStart; ObsError e]
  /\ connectionStatus_observations f1
     = [ObsStart; ObsNext Uninitialized; ObsNext Connecting; ObsNext Online;
        ObsNext FailedToConnect; ObsComplete]
  /\ activity_observations f1 = activity_observations f0 ++ [ObsComplete]
  /\ (initialActivities = [] -> earlier = [] ->
      activity_observations f1 = [ObsStart; ObsComplete])
  /\ cachedError f1 = Some e
  /\ forall later,
       postActivities execute later f1
       = (map (fun _ => [ObsStart; ObsError e]) later, f1).
Proof.
  intros f0 Hnone Hthrown f1.
  destruct (postActivities_no_error execute earlier (connect initialActivities) Hnone)
    as [_ Hstatus].
  fold f0 in Hstatus. cbn [connect connectionStatus_observations] in Hstatus.
  assert (Hpost : postActivity execute activity f0 =
            ([ObsStart; ObsError e],
             {| connectionStatus_observations :=
                  connectionStatus_observations f0 ++ [ObsNext FailedToConnect; ObsComplete];
                activity_observations := activity_observations f0 ++ [ObsComplete];
                cachedError := Some e;
                execute_calls := Datatypes.S (execute_calls f0) |})).
  { unfold postActivity. rewrite Hnone.
    destruct (execute (execute_calls f0) activity); cbn [thrown] in Hthrown; by simplify_eq. }
  unfold f1. rewrite Hpost. cbn [fst snd connectionStatus_observations activity_observations cachedError].
  split_and!; try done.
  - by rewrite Hstatus.
  - intros -> ->. reflexivity.
  - intros later. by apply postActivities_cached.
Qed.

(** * Worked instances *)

(** The first handle of a conversation whose first turn yields nothing. *)
Lemma turn_handle_single_use_witness :
  let api0 := engine_api offline (fixed_strategy Rest) false in
  let w1 := {| api := new_world; obsoleted := [false] |} in
  (forall activity,
     (@call World api0 0 activity w1).1 =
     match (@api_executeTurn World api0 activity (api w1)).1 with
     | inl e => inl e
     | inr stream => inr (@turnGenerator World stream)
     end)
  /\ (forall activity w2 w3 activity',
        rtc (@adapter_step World api0) w1 w2 ->
        rtc (@adapter_step World api0) (@call World api0 0 activity w2).2 w3 ->
        @call World api0 0 activity' w3
        = (inl (MkError "This executeTurn() function is obsoleted. Please use a new one."), w3)).
Proof.
  intros api0 w1.
  apply (@turn_handle_single_use World api0 (Return tt)
           {| api := new_world; obsoleted := [] |} w1 0 Closed).
  reflexivity.
Defined.

(** Scenario S5: [executeTurn] on a fresh engine. *)
Lemma executeTurn_before_startNewConversation_witness :
  truthy (this_conversationId new_world) = false
  /\ exists w',
       next (executeTurn offline (fixed_strategy Rest) false morning) new_world
         = (IThrow (MkError "startNewConversation() must be called before executeTurn()."),
            Closed, w')
       /\ strategy_calls w' = strategy_calls new_world
       /\ exchanges w' = exchanges new_world
       /\ w' = new_world.
Proof.
  split; [reflexivity|].
  apply (executeTurn_before_startNewConversation offline (fixed_strategy Rest) false morning
           new_world).
  reflexivity.
Defined.


(** Scenario S6: 404 on the first conversation POST. *)
Lemma no_retry_below_500_witness :
  exists w',
    next (hop_gen service_404 false http_test None None (RestHop 999 true)) new_world
      = (IThrow (server_returned not_found), Closed, w')
    /\ length (exchanges w') = length (exchanges new_world) + 1
    /\ last (exchanges w')
       = Some (hop_request service_404 http_test None None (RestHop 999 true) new_world,
               Responded not_found).
Proof.
  apply (no_retry_below_500 service_404 false http_test None None (RestHop 999 true)
           new_world 0 not_found (server_returned not_found)).
  - unfold RETRY_COUNT. lia.
  - intros j Hj. lia.
  - reflexivity.
  - unfold not_found. cbn [status]. lia.
  - reflexivity.
Defined.


(** A service that never stops answering "continue", with one activity
    each time. *)
Lemma rest_turn_ends_after_1000_iterations_witness :
  exists new w',
    drain (postWithREST service_continue false http_test None None) new_world
      = (concat (map (fun x => delivered x.2) new), Completed (Some tt), w')
    /\ exchanges w' = exchanges new_world ++ new
    /\ length new = 1000.
Proof.
  apply (proj2 (rest_turn_ends_after_1000_iterations service_continue false http_test None None
                  new_world)).
  intros req l. eexists _, _. split_and!; reflexivity.
Defined.

(** Scenario S3: the test 'postActivity() should reject when execute()
    throw'. *)
Lemma postActivity_rejects_when_execute_throws_witness :
  let f0 := connect [] in
  let f1 := (postActivity execute_throws aloha f0).2 in
  (postActivity execute_throws aloha f0).1 = [ObsStart; ObsError (MkError "artificial")]
  /\ connectionStatus_observations f1
     = [ObsStart; ObsNext Uninitialized; ObsNext Connecting; ObsNext Online;
        ObsNext FailedToConnect; ObsComplete]
  /\ activity_observations f1 = activity_observations f0 ++ [ObsComplete]
  /\ (@nil Activity = [] -> @nil Activity = [] ->
      activity_observations f1 = [ObsStart; ObsComplete])
  /\ cachedError f1 = Some (MkError "artificial")
  /\ forall later,
       postActivities execute_throws later f1
       = (map (fun _ => [ObsStart; ObsError (MkError "artificial")]) later, f1).
Proof.
  apply (postActivity_rejects_when_execute_throws execute_throws [] [] aloha
           (MkError "artificial")).
  - reflexivity.
  - reflexivity.
Defined.

(** A handle over an api whose [executeTurn] rejects. *)
Lemma failed_invocation_obsoletes_handle_witness :
  let w := {| api := tt; obsoleted := [false] |} in
  let w' := (@call unit rejecting_api 0 aloha w).2 in
  obsoleted w' !! 0 = Some true
  /\ @call unit rejecting_api 0 aloha w = (inl (MkError "artificial"), w')
  /\ (forall w'' activity',
        rtc (@adapter_step unit rejecting_api) w' w'' ->
        @call unit rejecting_api 0 activity' w'' = (inl obsoleted_error, w'')
        /\ message obsoleted_error
           = "This executeTurn() function is obsoleted. Please use a new one.").
Proof.
  intros w w'.
  destruct (@failed_invocation_obsoletes_handle unit rejecting_api 0 aloha w eq_refl)
    as (Hset & Hfail & Hlater).
  split; [exact Hset|]. split; [|exact Hlater].
  exact (proj1 (Hfail (MkError "artificial") tt eq_refl)).
Defined.

(** * Further properties of the engine *)

(** ** The shape of the requests of a turn *)

Section RequestShapes.
Context (P : Platform) (strategy : Strategy) (telemetry : bool).

(** Every request of a REST turn is built by the attempt closure, from the
    state of the engine at some hop. *)
Lemma rest_requests_shape baseURL body headers turns withBody w :
  exists new,
    exchanges (drain (postWithREST_from P telemetry baseURL body headers turns withBody) w).2
      = exchanges w ++ new
    /\ Forall (fun x => exists withBody' w',
                 x.1 = rest_request P baseURL body headers withBody' w') new.
Proof.
  revert turns withBody w.
  apply (postWithREST_from_ind P telemetry baseURL body headers
           (fun _ _ w res => exists new, exchanges res.2 = exchanges w ++ new
              /\ Forall (fun x => exists withBody' w',
                           x.1 = rest_request P baseURL body headers withBody' w') new)).
  - intros _ w. exists []. by rewrite app_nil_r.
  - intros turns withBody w failures o e0 e _ _. eexists. split.
    + cbn [snd]. by rewrite exchanges_trackException.
    + apply Forall_map, Forall_true. intros o'. by exists withBody, w.
  - intros turns withBody w failures o botResponse _ _ _. eexists. split.
    + cbn [snd]. by rewrite exchanges_adopt.
    + apply Forall_map, Forall_true. intros o'. by exists withBody, w.
  - intros turns withBody w failures o botResponse acts c w3 _ _ _ w2 _ (new & Hnew & Hall).
    cbn [snd] in *. eexists. split.
    + rewrite Hnew. unfold w2. rewrite exchanges_adopt. cbn [add_exchanges exchanges].
      by rewrite <- app_assoc.
    + apply Forall_app. split; [|done].
      apply Forall_map, Forall_true. intros o'. by exists withBody, w.
Qed.

(** A server-sent-events turn has one request phase: between one and five
    fetches of one and the same request. *)
Lemma sse_requests_shape baseURL body headers w :
  exists outcomes,
    exchanges (drain (postWithServerSentEvents P telemetry baseURL body headers) w).2
      = exchanges w ++ map (pair (sse_request P baseURL body headers w)) outcomes
    /\ 1 <= length outcomes <= Datatypes.S RETRY_COUNT.
Proof.
  unfold postWithServerSentEvents. cbn [drain]. rewrite sse_input_attempt.
  destruct (pRetry_attempt P (sse_request P baseURL body headers) sse_result RETRY_COUNT [] None w
              (sse_request_reads_id_only P baseURL body headers) I)
    as (failures & o & res & -> & _ & Hlen & _).
  exists (failures ++ [o]). split.
  - destruct res as [e|events]; cbn [drain snd].
    + by rewrite exchanges_trackException.
    + by rewrite exchanges_sse_activities.
  - rewrite length_app. cbn [length]. lia.
Qed.

(** The requests of a turn, whichever way it begins and whichever
    transport the strategy chooses. *)
Lemma turn_requests_shape t w :
  exists new,
    exchanges (drain (turn_gen P strategy telemetry t) w).2 = exchanges w ++ new
    /\ Forall (fun x => exists prep w',
                 turn_prepare strategy t (length (strategy_calls w)) = inr prep
                 /\ ((prep_transport prep <> Some ServerSentEvents
                      /\ exists withBody,
                           x.1 = rest_request P (prep_baseURL prep) (Some (turn_body t prep))
                                   (prep_headers prep) withBody w')
                     \/ (prep_transport prep = Some ServerSentEvents
                         /\ x.1 = sse_request P (prep_baseURL prep) (Some (turn_body t prep))
                                    (prep_headers prep) w'))) new.
Proof.
  rewrite drain_turn_gen.
  destruct (turn_allowed t w); [|exists []; by rewrite app_nil_r].
  destruct (turn_prepare strategy t (length (strategy_calls w))) as [e|prep];
    [exists []; by rewrite app_nil_r|].
  set (w0 := add_strategy_call (turn_call t) w).
  unfold post, postWithREST.
  destruct (prep_transport prep) as [[]|] eqn:Htransport.
  - destruct (rest_requests_shape (prep_baseURL prep) (Some (turn_body t prep))
                (prep_headers prep) MAX_TURN true w0) as (new & Hnew & Hall).
    exists new. split; [done|]. eapply Forall_impl; [exact Hall|].
    intros x (withBody & w' & Hx). exists prep, w'. split; [done|]. left.
    split; [congruence|]. by exists withBody.
  - destruct (sse_requests_shape (prep_baseURL prep) (Some (turn_body t prep))
                (prep_headers prep) w0) as (outcomes & Hnew & _).
    eexists. split; [exact Hnew|]. apply Forall_map, Forall_true.
    intros o. exists prep, w0. split; [done|]. by right.
  - destruct (rest_requests_shape (prep_baseURL prep) (Some (turn_body t prep))
                (prep_headers prep) MAX_TURN true w0) as (new & Hnew & Hall).
    exists new. split; [done|]. eapply Forall_impl; [exact Hall|].
    intros x (withBody & w' & Hx). exists prep, w'. split; [done|]. left.
    split; [congruence|]. by exists withBody.
Qed.
End RequestShapes.

(** ** Header names and their spellings *)

Section HeaderNames.
Context (P : Platform).

Lemma only_spelling_spec name (headers : gmap string string) k v :
  only_spelling name headers = true ->
  headers !! k = Some v -> lower k = name -> k = name.
Proof.
  unfold only_spelling. rewrite List.forallb_forall. intros Hall Hk Hl.
  specialize (Hall (k, v)). cbn [fst] in Hall. rewrite Hl, String.eqb_refl in Hall.
  apply String.eqb_eq, Hall, list_elem_of_In. by apply elem_of_map_to_list.
Qed.

(** An entry written under a name in lower case is the only one of that
    name when no other key spells the name. *)
Lemma entries_named_insert name v (headers : gmap string string) :
  lower name = name ->
  (forall k v', headers !! k = Some v' -> lower k = name -> k = name) ->
  entries_named name (<[name := v]> headers) = {[name := v]}.
Proof.
  intros Hname Hspelled. apply map_eq. intros k. apply option_eq. intros x.
  unfold entries_named.
  rewrite map_lookup_filter_Some, lookup_singleton_Some, lookup_insert_Some. cbn [fst].
  split.
  - intros [[[-> ->]|[Hne Hk]] Hl]; [done|]. destruct Hne. symmetry. by eapply Hspelled.
  - intros [-> ->]. split; [by left|done].
Qed.

Lemma entries_named_insert_ne name k v (headers : gmap string string) :
  lower k <> name ->
  entries_named name (<[k := v]> headers) = entries_named name headers.
Proof. intros Hk. unfold entries_named. by apply map_filter_insert_not. Qed.

Lemma spelling_insert name k v (headers : gmap string string) :
  lower k = k ->
  (forall k' v', headers !! k' = Some v' -> lower k' = name -> k' = name) ->
  forall k' v', <[k := v]> headers !! k' = Some v' -> lower k' = name -> k' = name.
Proof.
  intros Hk Hspelled k' v' [[<- _]|[_ Hk']]%lookup_insert_Some Hl.
  - by rewrite <- Hl.
  - by eapply Hspelled.
Qed.

Lemma spelling_conversation_headers name headers w :
  only_spelling name (default ∅ headers) = true ->
  forall k v, conversation_headers headers w !! k = Some v -> lower k = name -> k = name.
Proof.
  intros Honly. unfold conversation_headers. destruct (truthy _).
  - apply spelling_insert; [done|]. intros k v. by apply only_spelling_spec.
  - intros k v. by apply only_spelling_spec.
Qed.

(** The content-type entry of the request of a hop. *)
Lemma hop_request_content_type baseURL body headers h w :
  only_spelling "content-type" (default ∅ headers) = true ->
  entries_named "content-type" (req_headers (hop_request P baseURL body headers h w))
  = {["content-type" := "application/json"]}.
Proof.
  intros Honly. destruct h; cbn [hop_request rest_request sse_request req_headers].
  - apply entries_named_insert; [done|]. by apply spelling_conversation_headers.
  - apply entries_named_insert; [done|]. apply spelling_insert; [done|].
    by apply spelling_conversation_headers.
Qed.

(** The accept entry of the request of the server-sent-events reader. *)
Lemma sse_request_accept baseURL body headers w :
  req_headers (sse_request P baseURL body headers w) !! "accept" = Some "text/event-stream"
  /\ (only_spelling "accept" (default ∅ headers) = true ->
      entries_named "accept" (req_headers (sse_request P baseURL body headers w))
      = {["accept" := "text/event-stream"]}).
Proof.
  cbn [sse_request req_headers]. split.
  - rewrite lookup_insert_ne by done. apply lookup_insert_eq.
  - intros Honly. rewrite entries_named_insert_ne by done.
    apply entries_named_insert; [done|]. by apply spelling_conversation_headers.
Qed.

End HeaderNames.

(** X1. Every HTTP request of a turn is a POST, and the headers object
    given to [fetch] has the entry content-type: application/json, which
    replaces an entry of exactly that name among the strategy's headers.
    When no strategy header spells content-type in another case, it is the
    only entry under that header name; otherwise the other spelling stays
    beside it ([header_spellings_coexist]).  Over server-sent events the
    same holds of accept: text/event-stream. *)
Theorem requests_are_json_posts
    (P : Platform) (strategy : Strategy) (telemetry : bool) (t : Turn) (w : World) :
  exists new,
    exchanges (drain (turn_gen P strategy telemetry t) w).2 = exchanges w ++ new
    /\ forall req o, (req, o) ∈ new ->
       req_method req = "POST"
       /\ req_headers req !! "content-type" = Some "application/json"
       /\ exists prep,
            turn_prepare strategy t (length (strategy_calls w)) = inr prep
            /\ (only_spelling "content-type" (default ∅ (prep_headers prep)) = true ->
                entries_named "content-type" (req_headers req)
                = {["content-type" := "application/json"]})
            /\ (prep_transport prep = Some ServerSentEvents ->
                req_headers req !! "accept" = Some "text/event-stream"
                /\ (only_spelling "accept" (default ∅ (prep_headers prep)) = true ->
                    entries_named "accept" (req_headers req)
                    = {["accept" := "text/event-stream"]})).
Proof.
  destruct (turn_requests_shape P strategy telemetry t w) as (new & Hnew & Hall).
  exists new. split; [done|]. intros req o Hin.
  rewrite Forall_forall in Hall.
  destruct (Hall _ Hin) as (prep & w' & Hprep & [[Hrest [withBody Hreq]]|[Hsse Hreq]]);
    cbn [fst] in Hreq; subst req.
  - split_and!; [done|apply lookup_insert_eq|]. exists prep. split_and!; [done| |done].
    apply (hop_request_content_type P _ _ _ (RestHop 0 withBody)).
  - split_and!; [done|apply lookup_insert_eq|]. exists prep. split_and!; [done| |].
    + apply (hop_request_content_type P _ _ _ SseHop).
    + intros _. apply sse_request_accept.
Qed.

(** Two spellings of one header name are two keys of the headers object:
    a strategy that answers with Content-Type: text/plain and
    X-MS-ConversationId: c-00002 has both on every request, beside the
    engine's own content-type and x-ms-conversationid. *)
Example header_spellings_coexist :
  let w' := (drain (executeTurn offline (strategy_capitalised_headers Rest) false morning)
               (set_conversationId (Some "c-00001") new_world)).2 in
  map (fun x => (req_headers x.1 !! "Content-Type", req_headers x.1 !! "content-type",
                 size (entries_named "content-type" (req_headers x.1)),
                 req_headers x.1 !! "X-MS-ConversationId",
                 req_headers x.1 !! "x-ms-conversationid",
                 size (entries_named "x-ms-conversationid" (req_headers x.1))))
    (exchanges w')
  = replicate 5 (Some "text/plain", Some "application/json", 2,
                 Some "c-00002", Some "c-00001", 2).
Proof. vm_compute. reflexivity. Qed.

(** A strategy header the engine does not set itself is on every request. *)
Lemma turn_requests_headers
    (P : Platform) (strategy : Strategy) (telemetry : bool) (t : Turn) (w : World)
    (name : string) :
  name <> "content-type" -> name <> "x-ms-conversationid" -> name <> "accept" ->
  exists new,
    exchanges (drain (turn_gen P strategy telemetry t) w).2 = exchanges w ++ new
    /\ forall req o, (req, o) ∈ new ->
       exists prep,
         turn_prepare strategy t (length (strategy_calls w)) = inr prep
         /\ req_headers req !! name = default ∅ (prep_headers prep) !! name.
Proof.
  intros Hct Hid Hacc.
  destruct (turn_requests_shape P strategy telemetry t w) as (new & Hnew & Hall).
  exists new. split; [done|]. intros req o Hin.
  rewrite Forall_forall in Hall.
  destruct (Hall _ Hin) as (prep & w' & Hprep & [[Hrest [withBody Hreq]]|[Hsse Hreq]]);
    cbn [fst] in Hreq; subst req; exists prep; (split; [done|]).
  - cbn [rest_request req_headers]. rewrite lookup_insert_ne by done.
    unfold conversation_headers. destruct (truthy _); [|done].
    by rewrite lookup_insert_ne.
  - cbn [sse_request req_headers]. rewrite !lookup_insert_ne by done.
    unfold conversation_headers. destruct (truthy _); [|done].
    by rewrite lookup_insert_ne.
Qed.

Lemma turn_prepare_strategy_of (s : StrategyObject) (t : Turn) (n : nat) :
  turn_prepare (strategy_of s) t n
  = match object_prepare s t n with
    | inl e => inl e
    | inr answer => inr (destructured answer)
    end.
Proof. by destruct t. Qed.

(** X2. The engine forwards what the object spread copies of the
    strategy's headers value, its own enumerable properties.  For every
    name other than content-type, x-ms-conversationid and accept: when the
    strategy answers with a plain object, every request of the turn has
    the entry of that name unchanged, and none when the object has none;
    when it answers with a [Headers] instance, no request has an entry of
    that name, whatever the instance holds; an array of pairs contributes
    its elements under their indices. *)
Theorem strategy_headers_pass_through
    (P : Platform) (s : StrategyObject) (telemetry : bool) (t : Turn) (w : World)
    (name : string) :
  name <> "content-type" -> name <> "x-ms-conversationid" -> name <> "accept" ->
  exists new,
    exchanges (drain (turn_gen P (strategy_of s) telemetry t) w).2 = exchanges w ++ new
    /\ forall req o, (req, o) ∈ new ->
       exists answer,
         object_prepare s t (length (strategy_calls w)) = inr answer
         /\ req_headers req !! name
            = match ans_headers answer with
              | Some (HeadersObject entries) => entries !! name
              | Some (HeadersInstance _) => None
              | Some (HeadersArray pairs) => own_properties (HeadersArray pairs) !! name
              | None => None
              end.
Proof.
  intros Hct Hid Hacc.
  destruct (turn_requests_headers P (strategy_of s) telemetry t w name Hct Hid Hacc)
    as (new & Hnew & Hall).
  exists new. split; [done|]. intros req o Hin.
  destruct (Hall req o Hin) as (prep & Hprep & Hlookup).
  rewrite turn_prepare_strategy_of in Hprep.
  destruct (object_prepare s t (length (strategy_calls w))) as [e|answer]; [done|].
  injection Hprep as <-. exists answer. split; [done|].
  rewrite Hlookup. cbn [destructured prep_headers].
  by destruct (ans_headers answer) as [[entries|entries|pairs]|].
Qed.

(** An array of pairs is spread by index: the header x-dummy is not among
    the properties. *)
Example headers_array_is_spread_by_index :
  own_properties (HeadersArray [("x-dummy", "dummy")]) !! "0" = Some "x-dummy,dummy"
  /\ own_properties (HeadersArray [("x-dummy", "dummy")]) !! "x-dummy" = None
  /\ own_properties (HeadersInstance [("x-dummy", "dummy")]) !! "x-dummy" = None
  /\ own_properties (HeadersObject {["x-dummy" := "dummy"]}) !! "x-dummy" = Some "dummy".
Proof. vm_compute. repeat split. Qed.

(** The strategy of the wrapper's tests hands its header x-dummy over in a
    [Headers] instance: the three requests of scenario S1 carry the
    engine's own headers and no x-dummy. *)
Example headers_instance_is_not_forwarded :
  let w' := (drain (startNewConversation service_S1 (strategy_of (tests_strategy Rest))
                      false true) new_world).2 in
  map (fun x => (req_headers x.1 !! "x-dummy", req_headers x.1 !! "content-type",
                 req_headers x.1 !! "x-ms-conversationid", size (req_headers x.1)))
    (exchanges w')
  = [(None, Some "application/json", None, 1);
     (None, Some "application/json", Some "c-00001", 2);
     (None, Some "application/json", Some "c-00001", 2)].
Proof. vm_compute. reflexivity. Qed.

(** ** The conversation id, the fetches and the activities of a REST turn *)

Section RestTurn.
Context (P : Platform) (telemetry : bool).
Context (baseURL : URL) (body : option (gmap string JSON)) (headers : option (gmap string string)).

Lemma requests_follow_id_app id xs ys :
  requests_follow_id P baseURL headers id (xs ++ ys) <->
  requests_follow_id P baseURL headers id xs
  /\ requests_follow_id P baseURL headers (fold_left id_after (map snd xs) id) ys.
Proof.
  revert id. induction xs as [|x xs IH]; intros id; cbn [app requests_follow_id map fold_left].
  - tauto.
  - rewrite IH. tauto.
Qed.

Lemma id_after_transport_failure id o : transport_failure o = true -> id_after id o = id.
Proof.
  intros [e He]%rest_result_transport_failure. unfold id_after. by rewrite He.
Qed.

(** The request of a hop goes to the conversation the engine then knows. *)
Lemma rest_request_id withBody w :
  req_url (rest_request P baseURL body headers withBody w)
    = resolveURLWithQueryAndHash P ("conversations/" +:+ default "" (this_conversationId w)) baseURL
  /\ req_headers (rest_request P baseURL body headers withBody w) !! "x-ms-conversationid"
     = if truthy (this_conversationId w) then this_conversationId w
       else default ∅ headers !! "x-ms-conversationid".
Proof.
  split; [done|]. cbn [rest_request req_headers]. rewrite lookup_insert_ne by done.
  unfold conversation_headers. destruct (this_conversationId w) as [id|] eqn:Hid; [|done].
  destruct (truthy (Some id)); [|done]. by rewrite lookup_insert_eq.
Qed.

Lemma retried_follow_id req id failures :
  Forall (fun o => transport_failure o = true) failures ->
  req_url req = resolveURLWithQueryAndHash P ("conversations/" +:+ default "" id) baseURL ->
  req_headers req !! "x-ms-conversationid"
    = (if truthy id then id else default ∅ headers !! "x-ms-conversationid") ->
  requests_follow_id P baseURL headers id (map (pair req) failures)
  /\ fold_left id_after (map snd (map (pair req) failures)) id = id.
Proof.
  intros Hfailures Hurl Hheader.
  induction Hfailures as [|o failures Ho _ IH]; [done|].
  cbn [map requests_follow_id fold_left fst snd].
  rewrite (id_after_transport_failure id o Ho). tauto.
Qed.

Lemma this_conversationId_trackException e w :
  this_conversationId (trackException telemetry e w) = this_conversationId w.
Proof. unfold trackException. by destruct telemetry. Qed.

Lemma this_conversationId_adopt o botResponse w :
  rest_result o = inr botResponse ->
  this_conversationId (adopt botResponse w) = id_after (this_conversationId w) o.
Proof.
  intros Hres. unfold adopt, id_after. rewrite Hres. by destruct (truthy _).
Qed.

(** The exchanges of one request phase, as a list that follows the id. *)
Lemma phase_follows_id withBody w failures o :
  Forall (fun o' => transport_failure o' = true) failures ->
  let xs := map (pair (rest_request P baseURL body headers withBody w)) (failures ++ [o]) in
  requests_follow_id P baseURL headers (this_conversationId w) xs
  /\ fold_left id_after (map snd xs) (this_conversationId w)
     = id_after (this_conversationId w) o.
Proof.
  intros Hfailures xs. unfold xs. rewrite map_app.
  destruct (rest_request_id withBody w) as [Hurl Hheader].
  destruct (retried_follow_id _ (this_conversationId w) failures Hfailures Hurl Hheader)
    as [Hfollow Hid].
  split.
  - apply requests_follow_id_app. split; [done|]. rewrite Hid. by cbn.
  - rewrite map_app, fold_left_app, Hid. done.
Qed.
End RestTurn.

(** X3. Along a REST turn every request goes to the conversation the
    engine knows at that moment: the first to the id the engine holds when
    the turn begins (to 'conversations/' when it holds none), and each
    later one to the id left by the exchanges before it, where a bot
    response that carries a conversation id sets the id and every other
    outcome leaves it.  The x-ms-conversationid header names the same id
    whenever the engine has one.  The id the engine holds after the turn is
    the one left by all the exchanges. *)
Theorem rest_requests_follow_conversation_id
    (P : Platform) (telemetry : bool) (baseURL : URL)
    (body : option (gmap string JSON)) (headers : option (gmap string string)) (w : World) :
  exists new,
    exchanges (drain (postWithREST P telemetry baseURL body headers) w).2 = exchanges w ++ new
    /\ requests_follow_id P baseURL headers (this_conversationId w) new
    /\ this_conversationId (drain (postWithREST P telemetry baseURL body headers) w).2
       = fold_left id_after (map snd new) (this_conversationId w).
Proof.
  unfold postWithREST. generalize MAX_TURN true. intros turns withBody.
  revert turns withBody w.
  apply (postWithREST_from_ind P telemetry baseURL body headers
           (fun _ _ w res => exists new,
              exchanges res.2 = exchanges w ++ new
              /\ requests_follow_id P baseURL headers (this_conversationId w) new
              /\ this_conversationId res.2
                 = fold_left id_after (map snd new) (this_conversationId w))).
  - intros _ w. exists []. by rewrite app_nil_r.
  - intros turns withBody w failures o e0 e (Hfailures & _ & _) Hres.
    destruct (phase_follows_id P baseURL body headers withBody w failures o Hfailures)
      as [Hfollow Hid].
    eexists. split_and!.
    + cbn [snd]. by rewrite exchanges_trackException.
    + done.
    + cbn [snd]. rewrite this_conversationId_trackException, Hid.
      unfold id_after. by rewrite Hres.
  - intros turns withBody w failures o botResponse (Hfailures & _ & _) Hres _.
    destruct (phase_follows_id P baseURL body headers withBody w failures o Hfailures)
      as [Hfollow Hid].
    eexists. split_and!.
    + cbn [snd]. by rewrite exchanges_adopt.
    + done.
    + cbn [snd]. by rewrite (this_conversationId_adopt o), Hid.
  - intros turns withBody w failures o botResponse acts c w3 (Hfailures & _ & _) Hres _ w2 _
      (new & Hnew & Hfollow2 & Hid2).
    destruct (phase_follows_id P baseURL body headers withBody w failures o Hfailures)
      as [Hfollow Hid].
    assert (Hw2 : this_conversationId w2 = id_after (this_conversationId w) o)
      by (unfold w2; by rewrite (this_conversationId_adopt o)).
    cbn [snd] in *. eexists. split_and!.
    + rewrite Hnew. unfold w2. rewrite exchanges_adopt. cbn [add_exchanges exchanges].
      by rewrite <- app_assoc.
    + apply requests_follow_id_app. split; [done|]. by rewrite Hid, <- Hw2.
    + by rewrite Hid2, map_app, fold_left_app, Hid, Hw2.
Qed.

(** X4. A turn over server-sent events has a single request phase: it
    fetches between one and five times, every time the same request, built
    from the conversation id the engine holds when the turn begins and
    carrying the turn's whole body; reading the event stream sends
    nothing. *)
Theorem sse_turn_has_one_request_phase
    (P : Platform) (telemetry : bool) (baseURL : URL)
    (body : option (gmap string JSON)) (headers : option (gmap string string)) (w : World) :
  exists outcomes,
    exchanges (drain (postWithServerSentEvents P telemetry baseURL body headers) w).2
      = exchanges w ++ map (pair (sse_request P baseURL body headers w)) outcomes
    /\ 1 <= length outcomes <= 5
    /\ req_body (sse_request P baseURL body headers w) = body
    /\ req_url (sse_request P baseURL body headers w)
       = resolveURLWithQueryAndHash P
           ("conversations/" +:+ default "" (this_conversationId w)) baseURL.
Proof.
  destruct (sse_requests_shape P telemetry baseURL body headers w) as (outcomes & Hnew & Hlen).
  exists outcomes. split_and!; try done; unfold RETRY_COUNT in Hlen; lia.
Qed.

Section RestTurnBounds.
Context (P : Platform) (telemetry : bool).
Context (baseURL : URL) (body : option (gmap string JSON)) (headers : option (gmap string string)).

Lemma received_transport_failure o : transport_failure o = true -> received o = [].
Proof.
  intros [e He]%rest_result_transport_failure. unfold received. by rewrite He.
Qed.

Lemma received_retried (req : Request) (failures : list FetchOutcome) :
  Forall (fun o => transport_failure o = true) failures ->
  concat (map (fun x : Request * FetchOutcome => received x.2) (map (pair req) failures)) = [].
Proof.
  induction 1 as [|o failures Ho _ IH]; [done|].
  cbn [map concat snd]. by rewrite (received_transport_failure o Ho), IH.
Qed.

Lemma concat_received_app (xs ys : list (Request * FetchOutcome)) :
  concat (map (fun x => received x.2) (xs ++ ys))
  = concat (map (fun x => received x.2) xs) ++ concat (map (fun x => received x.2) ys).
Proof. by rewrite map_app, concat_app. Qed.

(** The activities of the exchanges of one request phase are those of its
    last exchange. *)
Lemma received_phase (req : Request) failures o :
  Forall (fun o' => transport_failure o' = true) failures ->
  concat (map (fun x : Request * FetchOutcome => received x.2)
            (map (pair req) (failures ++ [o])))
  = received o.
Proof.
  intros Hfailures. rewrite map_app, concat_received_app, received_retried by done.
  cbn [map concat snd app]. by rewrite app_nil_r.
Qed.

Lemma rest_fetches_bounded turns withBody w :
  exists new,
    exchanges (drain (postWithREST_from P telemetry baseURL body headers turns withBody) w).2
      = exchanges w ++ new
    /\ length new <= 5 * turns.
Proof.
  revert turns withBody w.
  apply (postWithREST_from_ind P telemetry baseURL body headers
           (fun turns _ w res =>
              exists new, exchanges res.2 = exchanges w ++ new /\ length new <= 5 * turns)).
  - intros _ w. exists []. split; [by rewrite app_nil_r|done].
  - intros turns withBody w failures o e0 e (_ & Hlen & _) _. eexists. split.
    + cbn [snd]. by rewrite exchanges_trackException.
    + rewrite length_map, length_app. cbn [length]. unfold RETRY_COUNT in Hlen. lia.
  - intros turns withBody w failures o botResponse (_ & Hlen & _) _ _. eexists. split.
    + cbn [snd]. by rewrite exchanges_adopt.
    + rewrite length_map, length_app. cbn [length]. unfold RETRY_COUNT in Hlen. lia.
  - intros turns withBody w failures o botResponse acts c w3 (_ & Hlen & _) _ _ w2 _
      (new & Hnew & Hbound).
    cbn [snd] in *. eexists. split.
    + rewrite Hnew. unfold w2. rewrite exchanges_adopt. cbn [add_exchanges exchanges].
      by rewrite <- app_assoc.
    + rewrite length_app, length_map, length_app. cbn [length].
      unfold RETRY_COUNT in Hlen. lia.
Qed.

Lemma rest_yields_received turns withBody w :
  exists new,
    exchanges (drain (postWithREST_from P telemetry baseURL body headers turns withBody) w).2
      = exchanges w ++ new
    /\ (drain (postWithREST_from P telemetry baseURL body headers turns withBody) w).1.1
       = concat (map (fun x => received x.2) new).
Proof.
  revert turns withBody w.
  apply (postWithREST_from_ind P telemetry baseURL body headers
           (fun _ _ w res =>
              exists new, exchanges res.2 = exchanges w ++ new
              /\ res.1.1 = concat (map (fun x => received x.2) new))).
  - intros _ w. exists []. split; [by rewrite app_nil_r|done].
  - intros turns withBody w failures o e0 e (Hfailures & _ & _) Hres. eexists. split.
    + cbn [snd]. by rewrite exchanges_trackException.
    + rewrite received_phase by done. unfold received. by rewrite Hres.
  - intros turns withBody w failures o botResponse (Hfailures & _ & _) Hres _. eexists. split.
    + cbn [snd]. by rewrite exchanges_adopt.
    + rewrite received_phase by done. unfold received. by rewrite Hres.
  - intros turns withBody w failures o botResponse acts c w3 (Hfailures & _ & _) Hres _ w2 _
      (new & Hnew & Hacts).
    cbn [fst snd] in *. eexists. split.
    + rewrite Hnew. unfold w2. rewrite exchanges_adopt. cbn [add_exchanges exchanges].
      by rewrite <- app_assoc.
    + rewrite concat_received_app, received_phase by done.
      unfold received at 1. by rewrite Hres, Hacts.
Qed.

Lemma tracked_adopt botResponse w : tracked (adopt botResponse w) = tracked w.
Proof. unfold adopt. by destruct (truthy _). Qed.

Lemma strategy_calls_adopt botResponse w :
  strategy_calls (adopt botResponse w) = strategy_calls w.
Proof. unfold adopt. by destruct (truthy _). Qed.

Lemma strategy_calls_trackException e w :
  strategy_calls (trackException telemetry e w) = strategy_calls w.
Proof. unfold trackException. by destruct telemetry. Qed.

Lemma rest_failure_tracked turns withBody w :
  let res := drain (postWithREST_from P telemetry baseURL body headers turns withBody) w in
  tracked res.2
  = tracked w ++ match res.1.2 with
                 | Failed e => if telemetry then [e] else []
                 | Completed _ => []
                 end.
Proof.
  revert turns withBody w.
  apply (postWithREST_from_ind P telemetry baseURL body headers
           (fun _ _ w res =>
              tracked res.2
              = tracked w ++ match res.1.2 with
                             | Failed e => if telemetry then [e] else []
                             | Completed _ => []
                             end)).
  - intros _ w. cbn. by rewrite app_nil_r.
  - intros turns withBody w failures o e0 e _ _. cbn [fst snd].
    unfold trackException. destruct telemetry; cbn; [done|by rewrite app_nil_r].
  - intros turns withBody w failures o botResponse _ _ _. cbn [fst snd].
    rewrite tracked_adopt. cbn. by rewrite app_nil_r.
  - intros turns withBody w failures o botResponse acts c w3 _ _ _ w2 _ IH.
    cbn [fst snd] in *. rewrite IH. unfold w2. by rewrite tracked_adopt.
Qed.

Lemma rest_keeps_strategy_calls turns withBody w :
  strategy_calls (drain (postWithREST_from P telemetry baseURL body headers turns withBody) w).2
  = strategy_calls w.
Proof.
  revert turns withBody w.
  apply (postWithREST_from_ind P telemetry baseURL body headers
           (fun _ _ w res => strategy_calls res.2 = strategy_calls w)).
  - done.
  - intros turns withBody w failures o e0 e _ _. cbn [snd].
    by rewrite strategy_calls_trackException.
  - intros turns withBody w failures o botResponse _ _ _. cbn [snd].
    by rewrite strategy_calls_adopt.
  - intros turns withBody w failures o botResponse acts c w3 _ _ _ w2 _ IH.
    cbn [snd] in *. rewrite IH. unfold w2. by rewrite strategy_calls_adopt.
Qed.

Lemma strategy_calls_sse_activities events w :
  strategy_calls (drain (sse_activities events) w).2 = strategy_calls w.
Proof.
  revert w. induction events as [|ev events IH]; intros w; [done|].
  cbn [sse_activities]. destruct (decide (event ev = Some "end")); [done|].
  destruct (decide (event ev = Some "activity")); [|apply IH].
  destruct (data ev) as [err|activity]; [done|]. cbn [drain].
  destruct (truthy (this_conversationId w)).
  - cbn [drain]. specialize (IH w). by destruct (drain (sse_activities events) w) as [[??]?].
  - destruct (act_conversation activity) as [id|]; [|done]. cbn [drain].
    specialize (IH (set_conversationId id w)).
    by destruct (drain (sse_activities events) (set_conversationId id w)) as [[??]?].
Qed.

Lemma sse_keeps_strategy_calls w :
  strategy_calls (drain (postWithServerSentEvents P telemetry baseURL body headers) w).2
  = strategy_calls w.
Proof.
  unfold postWithServerSentEvents. cbn [drain]. rewrite sse_input_attempt.
  destruct (pRetry_attempt P (sse_request P baseURL body headers) sse_result RETRY_COUNT [] None w
              (sse_request_reads_id_only P baseURL body headers) I)
    as (failures & o & res & -> & _).
  destruct res as [e|events]; cbn [drain snd].
  - by rewrite strategy_calls_trackException.
  - by rewrite strategy_calls_sse_activities.
Qed.
End RestTurnBounds.

(** X5. Whatever the service answers, a REST turn sends at most 5,000
    requests: at most five attempts for each of the at most 1,000
    iterations of its loop. *)
Theorem rest_turn_at_most_5000_fetches
    (P : Platform) (telemetry : bool) (baseURL : URL)
    (body : option (gmap string JSON)) (headers : option (gmap string string)) (w : World) :
  exists new,
    exchanges (drain (postWithREST P telemetry baseURL body headers) w).2 = exchanges w ++ new
    /\ length new <= 5000.
Proof.
  destruct (rest_fetches_bounded P telemetry baseURL body headers MAX_TURN true w)
    as (new & Hnew & Hlen).
  exists new. split; [done|]. unfold MAX_TURN in Hlen. lia.
Qed.

(** X6. Whatever the service answers and however the turn ends, the
    activities a REST turn yields are exactly the activities of the bot
    responses it accepted, in the order of the exchanges and, within a
    response, in the order of its [activities]: none is dropped, repeated
    or reordered. *)
Theorem rest_turn_yields_what_it_received
    (P : Platform) (telemetry : bool) (baseURL : URL)
    (body : option (gmap string JSON)) (headers : option (gmap string string)) (w : World) :
  exists new,
    exchanges (drain (postWithREST P telemetry baseURL body headers) w).2 = exchanges w ++ new
    /\ (drain (postWithREST P telemetry baseURL body headers) w).1.1
       = concat (map (fun x => received x.2) new).
Proof. apply (rest_yields_received P telemetry baseURL body headers MAX_TURN true w). Qed.

(** X7. When a REST turn fails, the error it throws is handed to the
    telemetry client exactly once if one was configured; nothing is
    reported when the turn ends without an error, nor when no telemetry
    client was configured. *)
Theorem rest_failure_reported_once
    (P : Platform) (telemetry : bool) (baseURL : URL)
    (body : option (gmap string JSON)) (headers : option (gmap string string)) (w : World) :
  let res := drain (postWithREST P telemetry baseURL body headers) w in
  tracked res.2
  = tracked w ++ match res.1.2 with
                 | Failed e => if telemetry then [e] else []
                 | Completed _ => []
                 end.
Proof. apply (rest_failure_tracked P telemetry baseURL body headers MAX_TURN true w). Qed.

(** X8. A turn consults the strategy exactly once, and through the method
    of its own direction:
    [startNewConversation] calls prepareStartNewConversation only,
    [executeTurn] calls prepareExecuteTurn only, and an [executeTurn]
    refused for want of a conversation id calls neither. *)
Theorem strategy_consulted_once_per_turn
    (P : Platform) (strategy : Strategy) (telemetry : bool) (t : Turn) (w : World) :
  strategy_calls (drain (turn_gen P strategy telemetry t) w).2
  = strategy_calls w ++ (if turn_allowed t w then [turn_call t] else []).
Proof.
  rewrite drain_turn_gen.
  destruct (turn_allowed t w); [|by rewrite app_nil_r].
  destruct (turn_prepare strategy t (length (strategy_calls w))) as [e|prep]; [done|].
  unfold post, postWithREST.
  destruct (prep_transport prep) as [[]|].
  - by rewrite rest_keeps_strategy_calls.
  - by rewrite sse_keeps_strategy_calls.
  - by rewrite rest_keeps_strategy_calls.
Qed.

(** ** Recovery by retry *)

(** A request phase resolves at the first attempt the decoder accepts,
    when only transport failures came before it. *)
Lemma phase_succeeds (P : Platform) {A} (mk : World -> Request)
    (decode : FetchOutcome -> Error + A) w k a :
  reads_id_only mk ->
  (forall o, transport_failure o = true -> exists e, decode o = inl e) ->
  k <= RETRY_COUNT ->
  (forall j, j < k ->
     transport_failure (fetch_outcome P (requests w ++ replicate (S j) (mk w))) = true) ->
  decode (fetch_outcome P (requests w ++ replicate (S k) (mk w))) = inr a ->
  exists xs,
    pRetry P (attempt P mk decode) onFailedAttempt RETRY_COUNT [] None w
      = (inr a, add_exchanges xs w)
    /\ length xs = S k.
Proof.
  intros Hmk Hdec Hk Hbefore Hat.
  destruct (pRetry_attempt P mk decode RETRY_COUNT [] None w Hmk I)
    as (failures & o & res & Hrun & Hfail & Hlen & Hout & Hset).
  assert (Hlast : o = fetch_outcome P (requests w ++ replicate (S (length failures)) (mk w))).
  { apply Hout. by rewrite lookup_app_r, Nat.sub_diag by lia. }
  destruct (Nat.lt_trichotomy (length failures) k) as [Hn|[Hn|Hn]].
  - exfalso. pose proof (Hbefore _ Hn) as Ho. rewrite <- Hlast in Ho.
    unfold settled in Hset. destruct (Hdec o Ho) as [e0 He0].
    rewrite He0, Ho in Hset. lia.
  - subst k. rewrite <- Hlast in Hat.
    unfold settled in Hset. rewrite Hat in Hset. subst res.
    eexists. split; [exact Hrun|].
    rewrite length_map, length_app. simpl. lia.
  - exfalso. destruct (lookup_lt_is_Some_2 failures k Hn) as [o' Ho'].
    pose proof (Hout k o' ltac:(by rewrite lookup_app_l by lia)) as Heq.
    rewrite Forall_forall in Hfail.
    destruct (Hfail o') as [_ [e He]]; [by eapply list_elem_of_lookup_2|].
    rewrite Heq in He. congruence.
Qed.

(** X9. Retrying recovers a REST hop: when up to four attempts fail at the
    transport level and the next one is answered with a bot response, the
    hop goes on as if nothing had failed.  If the action of that response
    is anything but "continue", the turn yields the activities of the
    response and ends without an error after exactly these fetches, the
    engine adopts the conversation id the response carries, and nothing is
    reported to telemetry. *)
Theorem retry_recovers
    (P : Platform) (telemetry : bool) (baseURL : URL)
    (body : option (gmap string JSON)) (headers : option (gmap string string))
    (turns : nat) (withBody : bool) (w : World) (k : nat) (botResponse : BotResponse) :
  let req := rest_request P baseURL body headers withBody w in
  k <= RETRY_COUNT ->
  (forall j, j < k ->
     transport_failure (fetch_outcome P (requests w ++ replicate (S j) req)) = true) ->
  rest_result (fetch_outcome P (requests w ++ replicate (S k) req)) = inr botResponse ->
  action botResponse <> "continue" ->
  exists w',
    drain (postWithREST_from P telemetry baseURL body headers (S turns) withBody) w
      = (activities botResponse, Completed (Some tt), w')
    /\ length (exchanges w') = length (exchanges w) + S k
    /\ this_conversationId w'
       = (if truthy (conversationId botResponse) then conversationId botResponse
          else this_conversationId w)
    /\ tracked w' = tracked w.
Proof.
  intros req Hk Hbefore Hat Hstop.
  destruct (phase_succeeds P _ rest_result w k botResponse
              (rest_request_reads_id_only P baseURL body headers withBody)
              rest_result_transport_failure Hk Hbefore Hat) as (xs & Hrun & Hlen).
  rewrite drain_postWithREST_from_S, rest_input_attempt, Hrun.
  destruct (decide (action botResponse = "continue")); [done|].
  cbn [drain]. rewrite app_nil_r. eexists. split; [reflexivity|]. split_and!.
  - rewrite exchanges_adopt. cbn [add_exchanges exchanges]. by rewrite length_app, Hlen.
  - unfold adopt. by destruct (truthy _).
  - unfold adopt. by destruct (truthy _).
Qed.

(** ** The event-stream reader *)

Lemma before_end_passed_over skipped events :
  Forall passed_over skipped ->
  before_end (skipped ++ events) = skipped ++ before_end events.
Proof.
  induction 1 as [|ev skipped [Hend _] _ IH]; [done|].
  cbn [app before_end]. destruct (decide (event ev = Some "end")); [done|]. by rewrite IH.
Qed.

Lemma parsed_activities_passed_over skipped events :
  Forall passed_over skipped ->
  parsed_activities (skipped ++ events) = parsed_activities events.
Proof.
  induction 1 as [|ev skipped [_ Hact] _ IH]; [done|].
  unfold parsed_activities in *. cbn [app flat_map].
  destruct (decide (event ev = Some "activity")); [done|]. by rewrite IH.
Qed.

(** The reader passes over events that are neither 'activity' nor 'end'. *)
Lemma sse_activities_passed_over skipped events :
  Forall passed_over skipped ->
  sse_activities (skipped ++ events) = sse_activities events.
Proof.
  induction 1 as [|ev skipped [Hend Hact] _ IH]; [done|].
  cbn [app sse_activities].
  destruct (decide (event ev = Some "end")); [done|].
  by destruct (decide (event ev = Some "activity")).
Qed.

(** With a conversation id, the reader yields what precedes 'end'. *)
Lemma sse_activities_with_id (events : list ParsedEvent) (w : World) :
  truthy (this_conversationId w) = true ->
  activities_parse (before_end events) ->
  drain (sse_activities events) w
  = (parsed_activities (before_end events), Completed (Some tt), w).
Proof.
  intros Hid. induction events as [|ev events IH]; intros Hparse; [done|].
  cbn [sse_activities before_end] in *.
  destruct (decide (event ev = Some "end")); [done|].
  apply Forall_cons in Hparse as [Hev Hparse].
  unfold parsed_activities. cbn [flat_map]. fold (parsed_activities (before_end events)).
  destruct (decide (event ev = Some "activity")) as [Hact|Hact]; [|by apply IH].
  destruct (Hev Hact) as [activity ->]. cbn [drain]. rewrite Hid. cbn [drain].
  by rewrite (IH Hparse).
Qed.

Lemma truthy_Some (id : string) : id <> "" -> truthy (Some id) = true.
Proof. intros Hid. unfold truthy. by apply negb_true_iff, String.eqb_neq. Qed.

(** X10. On an engine that has a conversation id, the event-stream reader
    yields the activities of the 'activity' events that precede the first
    'end' event, in order, and stops there without an error; events of any
    other name are passed over, events after 'end' are not read, a stream
    that ends without 'end' ends the turn cleanly, and the engine's state,
    its conversation id included, is left as it was.  (The data of the
    'activity' events before 'end' is taken to parse.) *)
Theorem sse_reader_yields_activities_before_end (events : list ParsedEvent) (w : World) :
  truthy (this_conversationId w) = true ->
  activities_parse (before_end events) ->
  drain (sse_activities events) w
  = (parsed_activities (before_end events), Completed (Some tt), w).
Proof. apply sse_activities_with_id. Qed.

(** X11. On an engine without a conversation id, the reader adopts the id
    of the first activity it reads, when that activity carries one: the
    activity is yielded, the id becomes the engine's, and the later
    activities of the stream, whatever conversation they name, are yielded
    without changing it. *)
Theorem sse_reader_adopts_first_conversation_id
    (skipped : list ParsedEvent) (ev : ParsedEvent) (events : list ParsedEvent)
    (activity : Activity) (id : string) (w : World) :
  truthy (this_conversationId w) = false ->
  Forall passed_over skipped ->
  event ev = Some "activity" ->
  data ev = inr activity ->
  act_conversation activity = Some (Some id) ->
  id <> "" ->
  activities_parse (before_end events) ->
  drain (sse_activities (skipped ++ ev :: events)) w
  = (activity :: parsed_activities (before_end events), Completed (Some tt),
     set_conversationId (Some id) w).
Proof.
  intros Hunset Hskipped Hact Hdata Hconv Hid Hparse.
  rewrite sse_activities_passed_over by done. cbn [sse_activities].
  destruct (decide (event ev = Some "end")) as [Hend|_]; [congruence|].
  destruct (decide (event ev = Some "activity")); [|done].
  rewrite Hdata. cbn [drain]. rewrite Hunset, Hconv. cbn [drain].
  rewrite sse_activities_with_id; [done| |done].
  cbn [set_conversationId this_conversationId]. by apply truthy_Some.
Qed.

(** X12. On an engine without a conversation id, an activity that has no
    [conversation] object stops the reader: reading
    [activity.conversation.id] throws, the turn fails with that error, the
    activity is not yielded and the engine still has no id. *)
Theorem sse_reader_needs_conversation
    (skipped : list ParsedEvent) (ev : ParsedEvent) (events : list ParsedEvent)
    (activity : Activity) (w : World) :
  truthy (this_conversationId w) = false ->
  Forall passed_over skipped ->
  event ev = Some "activity" ->
  data ev = inr activity ->
  act_conversation activity = None ->
  drain (sse_activities (skipped ++ ev :: events)) w
  = ([], Failed (MkError "Cannot read properties of undefined (reading 'id')"), w).
Proof.
  intros Hunset Hskipped Hact Hdata Hconv.
  rewrite sse_activities_passed_over by done. cbn [sse_activities].
  destruct (decide (event ev = Some "end")) as [Hend|_]; [congruence|].
  destruct (decide (event ev = Some "activity")); [|done].
  rewrite Hdata. cbn [drain]. by rewrite Hunset, Hconv.
Qed.


(** ** The turn wrapper *)

Section WrapperFacts.
Context {S : Type} `{HalfDuplexChatAdapterAPI S}.

(** The wrapped generator yields what the api's generator yields and ends
    as it ends; the closure for the next turn is made when, and only when,
    the api's generator returns. *)
Lemma drain_turnGenerator (activities : Gen S unit) (w : Adapter S) :
  drain (turnGenerator activities) w =
  let '(acts, c, s) := drain activities (api w) in
  match c with
  | Completed (Some _) =>
    (acts, Completed (Some (length (obsoleted w))),
     {| api := s; obsoleted := obsoleted w ++ [false] |})
  | Completed None => (acts, Completed None, {| api := s; obsoleted := obsoleted w |})
  | Failed e => (acts, Failed e, {| api := s; obsoleted := obsoleted w |})
  end.
Proof.
  unfold turnGenerator. revert w.
  induction activities as [r|e|a k IH|k IH|s k IH|]; intros w; cbn [lift bind drain].
  - by destruct w.
  - by destruct w.
  - rewrite IH. destruct (drain k (api w)) as [[acts c] s]. by destruct c as [[]|].
  - apply IH.
  - rewrite (IH (set_api s w)). done.
  - by destruct w.
Qed.

Lemma call_other_keeps_flag h h' activity (w : Adapter S) :
  h' <> h -> obsoleted (call h' activity w).2 !! h = obsoleted w !! h.
Proof.
  intros Hne. unfold call. destruct (obsoleted w !! h') as [[]|]; try done.
  destruct (api_executeTurn activity _) as [[e|activities] s];
    cbn [snd set_api set_obsoleted obsoleted]; by rewrite list_lookup_insert_ne.
Qed.

Lemma next_turnGenerator_keeps_flag (activities : Gen S unit) (w : Adapter S) h b :
  obsoleted w !! h = Some b ->
  obsoleted (next (turnGenerator activities) w).2 !! h = Some b.
Proof.
  unfold turnGenerator. revert w.
  induction activities as [r|e|a k IH|k IH|s k IH|]; intros w Hb; cbn [lift bind next snd];
    try done.
  - cbn [set_obsoleted obsoleted]. by apply lookup_app_l_Some.
  - by apply IH.
  - by apply (IH (set_api s w)).
Qed.

Lemma steps_without_keep_flag h (w w' : Adapter S) b :
  rtc (adapter_step_without h) w w' ->
  obsoleted w !! h = Some b -> obsoleted w' !! h = Some b.
Proof.
  induction 1 as [w|w1 w2 w3 Hstep _ IH]; [done|]. intros Hb. apply IH.
  destruct Hstep as [h' activity w1 Hne|activities w1].
  - by rewrite call_other_keeps_flag.
  - by apply next_turnGenerator_keeps_flag.
Qed.
End WrapperFacts.

(** X14. The wrapped turn stream yields exactly the activities of the
    engine's stream, in order, and fails with the engine's error when that
    fails; the handle for the next turn is created when, and only when, the
    engine's stream returns, it is a new closure, and a stream that fails
    creates none. *)
Theorem turnGenerator_passes_through
    {S : Type} `{HalfDuplexChatAdapterAPI S} (activities : Gen S unit) (w : Adapter S) :
  let '(acts, c, s) := drain activities (api w) in
  drain (turnGenerator activities) w =
  match c with
  | Completed (Some _) =>
    (acts, Completed (Some (length (obsoleted w))),
     {| api := s; obsoleted := obsoleted w ++ [false] |})
  | Completed None => (acts, Completed None, {| api := s; obsoleted := obsoleted w |})
  | Failed e => (acts, Failed e, {| api := s; obsoleted := obsoleted w |})
  end.
Proof.
  pose proof (drain_turnGenerator activities w) as Hdrain.
  by destruct (drain activities (api w)) as [[acts c] s].
Qed.

(** X15. A handle is obsoleted by its own invocation only: as long as it
    has not been invoked, whatever other handles are invoked and whatever
    streams are pulled, it is not turned away, and its invocation goes to
    the engine's [executeTurn]. *)
Theorem unused_handle_stays_usable
    {S : Type} `{HalfDuplexChatAdapterAPI S}
    (h : ExecuteTurnFunction) (w w' : Adapter S) (activity : Activity) :
  obsoleted w !! h = Some false ->
  rtc (adapter_step_without h) w w' ->
  obsoleted w' !! h = Some false
  /\ (call h activity w').1 =
     match (api_executeTurn activity (api w')).1 with
     | inl e => inl e
     | inr stream => inr (turnGenerator stream)
     end.
Proof.
  intros Hh Hsteps.
  pose proof (steps_without_keep_flag h w w' false Hsteps Hh) as Hh'.
  split; [done|]. unfold call. rewrite Hh'.
  by destruct (api_executeTurn activity _) as [[e|stream] s].
Qed.

(** ** The first request of a turn *)

Section FirstRequest.
Context (P : Platform) (strategy : Strategy) (telemetry : bool).

Lemma rest_hop_first_request baseURL body headers turns withBody w :
  exists o rest,
    exchanges (drain (postWithREST_from P telemetry baseURL body headers (S turns) withBody) w).2
    = exchanges w ++ (rest_request P baseURL body headers withBody w, o) :: rest.
Proof.
  rewrite drain_postWithREST_from_S, rest_input_attempt.
  destruct (pRetry_attempt P (rest_request P baseURL body headers withBody) rest_result
              RETRY_COUNT [] None w
              (rest_request_reads_id_only P baseURL body headers withBody) I)
    as (failures & o & res & -> & _).
  assert (exists o0 tail,
            map (pair (rest_request P baseURL body headers withBody w)) (failures ++ [o])
            = (rest_request P baseURL body headers withBody w, o0) :: tail)
    as (o0 & tail & Hphase).
  { destruct failures as [|f failures]; cbn [app map]; eauto. }
  rewrite Hphase. destruct res as [e|botResponse].
  - exists o0, tail. cbn [snd]. by rewrite exchanges_trackException.
  - destruct (decide (action botResponse = "continue")).
    + destruct (rest_requests_shape P telemetry baseURL body headers turns false
                  (adopt botResponse
                     (add_exchanges ((rest_request P baseURL body headers withBody w, o0) :: tail) w)))
        as (new & Hnew & _).
      destruct (drain _ (adopt botResponse _)) as [[acts c] w3]. cbn [snd] in *.
      exists o0, (tail ++ new). rewrite Hnew, exchanges_adopt. cbn [add_exchanges exchanges].
      by rewrite <- app_assoc.
    + exists o0, tail. cbn [drain snd]. by rewrite exchanges_adopt.
Qed.

(** A turn that gets past the guard and the strategy sends at least one
    request, and the first is the request of its first hop. *)
Lemma turn_first_request t w prep :
  turn_allowed t w = true ->
  turn_prepare strategy t (length (strategy_calls w)) = inr prep ->
  exists o rest,
    exchanges (drain (turn_gen P strategy telemetry t) w).2
    = exchanges w
      ++ (hop_request P (prep_baseURL prep) (Some (turn_body t prep)) (prep_headers prep)
            (first_hop (prep_transport prep)) (add_strategy_call (turn_call t) w), o) :: rest.
Proof.
  intros Hallowed Hprep. rewrite drain_turn_gen, Hallowed, Hprep.
  set (w0 := add_strategy_call (turn_call t) w).
  unfold post, postWithREST, first_hop.
  destruct (prep_transport prep) as [[]|]; cbn [hop_request].
  - apply (rest_hop_first_request _ _ _ (pred MAX_TURN) true w0).
  - destruct (sse_requests_shape P telemetry (prep_baseURL prep) (Some (turn_body t prep))
                (prep_headers prep) w0) as (outcomes & -> & Hlen & _).
    destruct outcomes as [|o outcomes]; [cbn in Hlen; lia|].
    cbn [map]. by eexists o, _.
  - apply (rest_hop_first_request _ _ _ (pred MAX_TURN) true w0).
Qed.

Lemma hop_request_body baseURL body headers transport w :
  req_body (hop_request P baseURL body headers (first_hop transport) w) = body.
Proof. by destruct transport as [[]|]. Qed.

Lemma hop_request_url baseURL body headers h w :
  req_url (hop_request P baseURL body headers h w)
  = resolveURLWithQueryAndHash P ("conversations/" +:+ default "" (this_conversationId w)) baseURL.
Proof. by destruct h. Qed.

Lemma hop_request_conversation_header baseURL body headers h w :
  truthy (this_conversationId w) = false ->
  req_headers (hop_request P baseURL body headers h w) !! "x-ms-conversationid"
  = default ∅ headers !! "x-ms-conversationid".
Proof.
  intros Hunset.
  destruct h; cbn [hop_request rest_request sse_request req_headers];
    rewrite !lookup_insert_ne by done; unfold conversation_headers; by rewrite Hunset.
Qed.
End FirstRequest.

(** X16. A turn that gets past the guard and the strategy sends at least
    one request, and the body of its first request is the strategy's body
    with one key set by the engine: [emitStartConversationEvent] to the
    flag given to [startNewConversation], or [activity] to the activity
    given to [executeTurn].  The engine's value wins over a key of that
    name in the strategy's body, and every other key is the strategy's. *)
Theorem first_request_carries_merged_body
    (P : Platform) (strategy : Strategy) (telemetry : bool) (t : Turn) (w : World)
    (prep : StrategyRequestPrep) :
  turn_allowed t w = true ->
  turn_prepare strategy t (length (strategy_calls w)) = inr prep ->
  exists req o rest b,
    exchanges (drain (turn_gen P strategy telemetry t) w).2 = exchanges w ++ (req, o) :: rest
    /\ req_body req = Some b
    /\ b !! turn_key t = Some (turn_value t)
    /\ forall key, key <> turn_key t -> b !! key = default ∅ (prep_body prep) !! key.
Proof.
  intros Hallowed Hprep.
  destruct (turn_first_request P strategy telemetry t w prep Hallowed Hprep) as (o & rest & Hnew).
  eexists _, o, rest, (turn_body t prep). split_and!.
  - exact Hnew.
  - apply hop_request_body.
  - destruct t; apply lookup_insert_eq.
  - intros key Hkey. destruct t; cbn [turn_body turn_key] in *; by rewrite lookup_insert_ne.
Qed.

(** X17. The first request of a new conversation, as
    [createHalfDuplexChatAdapter] starts it: it goes to 'conversations/'
    under the strategy's base URL, the engine adds no x-ms-conversationid
    header, and its body carries [emitStartConversationEvent], true unless
    the adapter was created with false. *)
Theorem new_conversation_first_request
    (P : Platform) (strategy : Strategy) (telemetry : bool)
    (emitStartConversationEvent : option bool) (prep : StrategyRequestPrep) :
  prepareStartNewConversation strategy 0 = inr prep ->
  let '(generator, w0) :=
    createHalfDuplexChatAdapter P strategy telemetry emitStartConversationEvent in
  exists req o rest b,
    exchanges (api (drain generator w0).2) = (req, o) :: rest
    /\ req_url req = resolveURLWithQueryAndHash P "conversations/" (prep_baseURL prep)
    /\ req_headers req !! "x-ms-conversationid"
       = default ∅ (prep_headers prep) !! "x-ms-conversationid"
    /\ req_body req = Some b
    /\ b !! "emitStartConversationEvent"
       = Some (JBool (default true emitStartConversationEvent)).
Proof.
  intros Hprep. unfold createHalfDuplexChatAdapter.
  set (emit := default true emitStartConversationEvent).
  rewrite (drain_turnGenerator (startNewConversation P strategy telemetry emit)).
  cbn [api].
  destruct (turn_first_request P strategy telemetry (StartTurn emit) new_world prep eq_refl Hprep)
    as (o & rest & Hnew).
  cbn [turn_gen exchanges new_world app] in Hnew.
  destruct (drain (startNewConversation P strategy telemetry emit) new_world) as [[acts c] s].
  cbn [snd] in Hnew.
  destruct c as [[[]|]|e]; cbn [snd api];
    (eexists _, o, rest, _; split_and!;
     [ exact Hnew
     | by rewrite hop_request_url
     | by apply hop_request_conversation_header
     | apply hop_request_body
     | apply lookup_insert_eq ]).
Qed.

(** ** TestCanvasBotAPIStrategy *)

Lemma uuid_char_kept c : uuid_char c = true -> uri_kept c = true.
Proof.
  unfold uuid_char, uri_kept. intros [[Hd|Hl]%orb_true_iff|Hh]%orb_true_iff.
  - by rewrite Hd.
  - rewrite Hl. by rewrite orb_true_r.
  - apply Ascii.eqb_eq in Hh as ->. by vm_compute.
Qed.

(** [encodeURI] leaves a string of letters, digits and hyphens as it is. *)
Lemma encodeURI_uuid_chars s : uuid_chars s = true -> encodeURI s = s.
Proof.
  induction s as [|c s IH]; [done|]. cbn [uuid_chars encodeURI].
  intros [Hc Hs]%andb_true_iff. by rewrite (uuid_char_kept c Hc), IH.
Qed.

Lemma TestCanvas_turn_prepare P init t n :
  turn_prepare (TestCanvasBotAPIStrategy P init) t n
  = prepareStartNewConversation (TestCanvasBotAPIStrategy P init) n.
Proof. by destruct t. Qed.

(** X18. With the test-canvas strategy every request of a turn carries the
    header authorization: Bearer followed by the token that
    [getTokenCallback] gave when the turn consulted the strategy: the token
    is asked for anew at each turn and sent on the first hop, on every
    retry and on every continuation hop. *)
Theorem test_canvas_requests_carry_bearer_token
    (P : Platform) (init : TestCanvasBotAPIStrategyInit) (telemetry : bool)
    (t : Turn) (w : World) (token : string) :
  getTokenCallback init (length (strategy_calls w)) = inr token ->
  exists new,
    exchanges (drain (turn_gen P (TestCanvasBotAPIStrategy P init) telemetry t) w).2
      = exchanges w ++ new
    /\ forall req o, (req, o) ∈ new ->
       req_headers req !! "authorization" = Some ("Bearer " +:+ token).
Proof.
  intros Htoken.
  destruct (turn_requests_headers P (TestCanvasBotAPIStrategy P init) telemetry t w
              "authorization") as (new & Hnew & Hall); [done..|].
  exists new. split; [done|]. intros req o Hin.
  destruct (Hall req o Hin) as (prep & Hprep & ->).
  rewrite TestCanvas_turn_prepare in Hprep.
  cbn [TestCanvasBotAPIStrategy prepareStartNewConversation] in Hprep.
  rewrite Htoken in Hprep. injection Hprep as <-.
  cbn [prep_headers default]. apply lookup_singleton_eq.
Qed.

(** X19. With the test-canvas strategy a turn whose token cannot be
    obtained sends nothing: when [getTokenCallback] rejects, the turn fails
    with that error before any HTTP request. *)
Theorem test_canvas_token_failure_sends_nothing
    (P : Platform) (init : TestCanvasBotAPIStrategyInit) (telemetry : bool)
    (t : Turn) (w : World) (e : Error) :
  turn_allowed t w = true ->
  getTokenCallback init (length (strategy_calls w)) = inl e ->
  exists w',
    drain (turn_gen P (TestCanvasBotAPIStrategy P init) telemetry t) w = ([], Failed e, w')
    /\ exchanges w' = exchanges w
    /\ this_conversationId w' = this_conversationId w.
Proof.
  intros Hallowed Htoken. rewrite drain_turn_gen, Hallowed, TestCanvas_turn_prepare.
  cbn [TestCanvasBotAPIStrategy prepareStartNewConversation]. rewrite Htoken.
  by eexists.
Qed.

(** X20. The test-canvas strategy answers every call, in both directions,
    with the base URL its constructor resolved: for an environment id and a
    bot id made of letters, digits and hyphens, as UUIDs are, the ids are
    not escaped and the base URL is
    '/environments/<environment id>/bots/<bot id>/test/' resolved against
    the island URI.  The body holds the delta token under [deltaToken] and
    the transport is the one given to the constructor. *)
Theorem test_canvas_base_url
    (P : Platform) (init : TestCanvasBotAPIStrategyInit) (t : Turn) (n : nat)
    (token : string) :
  uuid_chars (environmentId init) = true ->
  uuid_chars (botId init) = true ->
  getTokenCallback init n = inr token ->
  exists prep,
    turn_prepare (TestCanvasBotAPIStrategy P init) t n = inr prep
    /\ prep_baseURL prep
       = URL_new P
           ("/environments/" +:+ environmentId init +:+ "/bots/" +:+ botId init +:+ "/test/")
           (islandURI init)
    /\ (exists b, prep_body prep = Some b
          /\ b !! "deltaToken"
             = Some (match deltaToken init with Some d => JString d | None => JUndefined end)
          /\ size b = 1)
    /\ prep_transport prep = Some (transport init).
Proof.
  intros Henv Hbot Htoken. rewrite TestCanvas_turn_prepare.
  cbn [TestCanvasBotAPIStrategy prepareStartNewConversation]. rewrite Htoken.
  eexists. split; [reflexivity|]. cbn [prep_baseURL prep_body prep_transport].
  rewrite (encodeURI_uuid_chars _ Henv), (encodeURI_uuid_chars _ Hbot).
  split_and!; [done| |done].
  eexists. split_and!; [done|apply lookup_singleton_eq|apply map_size_singleton].
Qed.

(** With the URL parser above: the reference begins with a slash, so it
    replaces the path of the island URI, and the requests of the turn go
    to 'conversations/' under it. *)
Example test_canvas_urls :
  let strategy := TestCanvasBotAPIStrategy renaming_service (canvas_init token_resolves) in
  let w' := (drain (startNewConversation renaming_service strategy false true) new_world).2 in
  URL_new_relative "/environments/e/bots/b/test/"
    {| origin := "https://island"; pathname := ["api"; "v1"]; query := Some "x=1";
       fragment := None |}
  = {| origin := "https://island"; pathname := ["environments"; "e"; "bots"; "b"; "test"; ""];
       query := None; fragment := None |}
  /\ map (fun x => href (req_url x.1)) (exchanges w')
     = ["http://test/environments/aaaaaaaa-bbbb-cccc-dddd-eeeeeeeeeeee/bots/"
        +:+ "11111111-2222-3333-4444-555555555555/test/conversations/"].
Proof. vm_compute. repeat split. Qed.

(** ** Telemetry over server-sent events *)

Lemma tracked_sse_activities events w :
  tracked (drain (sse_activities events) w).2 = tracked w.
Proof.
  revert w. induction events as [|ev events IH]; intros w; [done|].
  cbn [sse_activities]. destruct (decide (event ev = Some "end")); [done|].
  destruct (decide (event ev = Some "activity")); [|apply IH].
  destruct (data ev) as [err|activity]; [done|]. cbn [drain].
  destruct (truthy (this_conversationId w)).
  - cbn [drain]. specialize (IH w). by destruct (drain (sse_activities events) w) as [[??]?].
  - destruct (act_conversation activity) as [id|]; [|done]. cbn [drain].
    specialize (IH (set_conversationId id w)).
    by destruct (drain (sse_activities events) (set_conversationId id w)) as [[??]?].
Qed.

(** X21. Over server-sent events only the request phase reports to
    telemetry.  When the last fetch of the turn is not accepted (the phase
    gave up or was cut short), the turn fails before yielding anything and
    its error is handed to the telemetry client once, if one is configured.
    When the last fetch is accepted, nothing is reported, even if the turn
    then fails while the stream is read (data that does not parse, an
    activity without a conversation). *)
Theorem sse_failure_reported_for_request_phase_only
    (P : Platform) (telemetry : bool) (baseURL : URL)
    (body : option (gmap string JSON)) (headers : option (gmap string string)) (w : World) :
  let res := drain (postWithServerSentEvents P telemetry baseURL body headers) w in
  exists retried o,
    exchanges res.2
      = exchanges w ++ map (pair (sse_request P baseURL body headers w)) (retried ++ [o])
    /\ match sse_result o with
       | inl _ =>
         exists e, res.1 = ([], Failed e)
                   /\ tracked res.2 = tracked w ++ (if telemetry then [e] else [])
       | inr events =>
         tracked res.2 = tracked w
         /\ res.1 = (drain (sse_activities events)
                       (add_exchanges
                          (map (pair (sse_request P baseURL body headers w)) (retried ++ [o]))
                          w)).1
       end.
Proof.
  cbv zeta. unfold postWithServerSentEvents. cbn [drain]. rewrite sse_input_attempt.
  destruct (pRetry_attempt P (sse_request P baseURL body headers) sse_result RETRY_COUNT [] None w
              (sse_request_reads_id_only P baseURL body headers) I)
    as (failures & o & res & -> & _ & _ & _ & Hset).
  exists failures, o. unfold settled in Hset.
  destruct (sse_result o) as [e0|events].
  - assert (exists e, res = inl e) as [e ->].
    { destruct (transport_failure o); [by destruct Hset as [_ ?]|eauto]. }
    cbn [drain fst snd]. split; [by rewrite exchanges_trackException|].
    exists e. split; [done|]. unfold trackException. destruct telemetry; [done|].
    by rewrite app_nil_r.
  - subst res. cbn [drain]. split; [by rewrite exchanges_sse_activities|].
    by rewrite tracked_sse_activities.
Qed.

(** ** A turn of a started conversation *)

Lemma hop_request_known_conversation (P : Platform) baseURL body headers h w id :
  this_conversationId w = Some id -> id <> "" ->
  req_headers (hop_request P baseURL body headers h w) !! "x-ms-conversationid" = Some id.
Proof.
  intros Hw Hid.
  destruct h; cbn [hop_request rest_request sse_request req_headers];
    rewrite !lookup_insert_ne by done; unfold conversation_headers;
    rewrite Hw, (truthy_Some id Hid); apply lookup_insert_eq.
Qed.

(** The conversation entry of the request of a hop, once the engine holds
    an id. *)
Lemma hop_request_conversation_entry (P : Platform) baseURL body headers h w id :
  this_conversationId w = Some id -> id <> "" ->
  only_spelling "x-ms-conversationid" (default ∅ headers) = true ->
  entries_named "x-ms-conversationid" (req_headers (hop_request P baseURL body headers h w))
  = {["x-ms-conversationid" := id]}.
Proof.
  intros Hw Hid Honly.
  assert (Hconv : entries_named "x-ms-conversationid" (conversation_headers headers w)
                  = {["x-ms-conversationid" := id]}).
  { unfold conversation_headers. rewrite Hw, (truthy_Some id Hid). cbn [default].
    apply entries_named_insert; [done|]. intros k v. by apply only_spelling_spec. }
  destruct h; cbn [hop_request rest_request sse_request req_headers];
    rewrite !entries_named_insert_ne by done; exact Hconv.
Qed.
(** X22. Once the engine knows the conversation, [executeTurn] gets past
    its guard: it sends at least one request, and the first goes to
    'conversations/' followed by the id, under the base URL the strategy
    gives for this turn, has the id under the key x-ms-conversationid of
    its headers object, where it replaces a strategy entry of exactly that
    name, and carries the user's activity.  When no strategy header spells
    x-ms-conversationid in another case, the id is the only entry under
    that header name. *)
Theorem executeTurn_goes_to_known_conversation
    (P : Platform) (strategy : Strategy) (telemetry : bool) (activity : Activity)
    (w : World) (id : string) (prep : StrategyRequestPrep) :
  this_conversationId w = Some id ->
  id <> "" ->
  prepareExecuteTurn strategy (length (strategy_calls w)) = inr prep ->
  exists req o rest b,
    exchanges (drain (executeTurn P strategy telemetry activity) w).2
      = exchanges w ++ (req, o) :: rest
    /\ req_url req
       = resolveURLWithQueryAndHash P ("conversations/" +:+ id) (prep_baseURL prep)
    /\ req_headers req !! "x-ms-conversationid" = Some id
    /\ (only_spelling "x-ms-conversationid" (default ∅ (prep_headers prep)) = true ->
        entries_named "x-ms-conversationid" (req_headers req)
        = {["x-ms-conversationid" := id]})
    /\ req_body req = Some b
    /\ b !! "activity" = Some (JActivity activity).
Proof.
  intros Hw Hid Hprep.
  assert (Hallowed : turn_allowed (ExecuteTurn activity) w = true).
  { cbn [turn_allowed]. rewrite Hw. by apply truthy_Some. }
  destruct (turn_first_request P strategy telemetry (ExecuteTurn activity) w prep Hallowed Hprep)
    as (o & rest & Hnew).
  cbn [turn_gen] in Hnew. eexists _, o, rest, _. split_and!.
  - exact Hnew.
  - rewrite hop_request_url. cbn [add_strategy_call this_conversationId]. by rewrite Hw.
  - by apply hop_request_known_conversation.
  - by apply hop_request_conversation_entry.
  - apply hop_request_body.
  - apply lookup_insert_eq.
Qed.

(** * Worked instances of the further properties *)

(** The header x-dummy of the tests' strategy, held in a [Headers]
    instance. *)
Lemma strategy_headers_pass_through_witness :
  exists new,
    exchanges (drain (turn_gen service_S1 (strategy_of (tests_strategy Rest)) false
                        (StartTurn true)) new_world).2
      = exchanges new_world ++ new
    /\ length new = 3
    /\ forall req o, (req, o) ∈ new -> req_headers req !! "x-dummy" = None.
Proof.
  destruct (strategy_headers_pass_through service_S1 (tests_strategy Rest) false
              (StartTurn true) new_world "x-dummy")
    as (new & Hnew & Hall); [discriminate..|].
  exists new. split_and!; [exact Hnew| |].
  - assert (Hlen : length (exchanges (drain (turn_gen service_S1
                                (strategy_of (tests_strategy Rest)) false
                                (StartTurn true)) new_world).2) = 3)
      by (vm_compute; reflexivity).
    rewrite Hnew in Hlen. exact Hlen.
  - intros req o Hin. destruct (Hall req o Hin) as (answer & Hanswer & Hlookup).
    injection Hanswer as <-. exact Hlookup.
Defined.

(** One 503, then a response with the action "waiting". *)
Lemma retry_recovers_witness :
  exists w',
    drain (postWithREST_from service_503_waiting false http_test None None 1000 true) new_world
      = (activities waiting_response, Completed (Some tt), w')
    /\ length (exchanges w') = length (exchanges new_world) + 2
    /\ this_conversationId w'
       = (if truthy (conversationId waiting_response) then conversationId waiting_response
          else this_conversationId new_world)
    /\ tracked w' = tracked new_world.
Proof.
  apply (retry_recovers service_503_waiting false http_test None None 999 true new_world 1
           waiting_response).
  - unfold RETRY_COUNT. lia.
  - intros j Hj. assert (j = 0) as -> by lia. reflexivity.
  - reflexivity.
  - discriminate.
Defined.

(** A stream read by an engine that has a conversation id. *)
Lemma sse_reader_yields_activities_before_end_witness :
  drain (sse_activities [activity_event hello; ping_event; end_event; activity_event aloha])
    started_world
  = (parsed_activities
       (before_end [activity_event hello; ping_event; end_event; activity_event aloha]),
     Completed (Some tt), started_world)
  /\ parsed_activities
       (before_end [activity_event hello; ping_event; end_event; activity_event aloha])
     = [hello].
Proof.
  split; [|reflexivity].
  apply (sse_reader_yields_activities_before_end
           [activity_event hello; ping_event; end_event; activity_event aloha] started_world).
  - reflexivity.
  - repeat constructor; intros Hevent; try discriminate Hevent; by eexists.
Defined.

(** A stream read by a fresh engine: the id of the first activity. *)
Lemma sse_reader_adopts_first_conversation_id_witness :
  drain (sse_activities ([ping_event] ++ activity_event hello_c1 :: [activity_event aloha; end_event]))
    new_world
  = (hello_c1 :: parsed_activities (before_end [activity_event aloha; end_event]),
     Completed (Some tt), set_conversationId (Some "c-00001") new_world).
Proof.
  apply (sse_reader_adopts_first_conversation_id [ping_event] (activity_event hello_c1)
           [activity_event aloha; end_event] hello_c1 "c-00001" new_world).
  - reflexivity.
  - repeat constructor; discriminate.
  - reflexivity.
  - reflexivity.
  - reflexivity.
  - discriminate.
  - repeat constructor; intros Hevent; try discriminate Hevent; by eexists.
Defined.

(** The stream of the wrapper's tests, read by a fresh engine: its
    activities have no conversation object. *)
Lemma sse_reader_needs_conversation_witness :
  drain (sse_activities ([] ++ activity_event hello :: [activity_event aloha; end_event]))
    new_world
  = ([], Failed (MkError "Cannot read properties of undefined (reading 'id')"), new_world).
Proof.
  apply (sse_reader_needs_conversation [] (activity_event hello)
           [activity_event aloha; end_event] hello new_world); try reflexivity.
  constructor.
Defined.


(** Two handles; the second is invoked, the first is still usable. *)
Lemma unused_handle_stays_usable_witness :
  let api0 := engine_api offline (fixed_strategy Rest) false in
  let w := {| api := new_world; obsoleted := [false; false] |} in
  let w' := (@call World api0 1 morning w).2 in
  obsoleted w' !! 0 = Some false
  /\ (@call World api0 0 aloha w').1 =
     match (@api_executeTurn World api0 aloha (api w')).1 with
     | inl e => inl e
     | inr stream => inr (@turnGenerator World stream)
     end.
Proof.
  intros api0 w w'.
  apply (@unused_handle_stays_usable World api0 0 w w' aloha).
  - reflexivity.
  - apply rtc_once. unfold w'. apply (@step_call_other World api0 0 1 morning w). discriminate.
Defined.

(** The first request of the first turn of scenario S1. *)
Lemma first_request_carries_merged_body_witness :
  exists req o rest b,
    exchanges (drain (turn_gen service_S1 strategy_S1 false (StartTurn false)) new_world).2
      = exchanges new_world ++ (req, o) :: rest
    /\ req_body req = Some b
    /\ b !! turn_key (StartTurn false) = Some (turn_value (StartTurn false))
    /\ forall key, key <> turn_key (StartTurn false) ->
         b !! key = default ∅ (prep_body prep_S1) !! key.
Proof.
  apply (first_request_carries_merged_body service_S1 strategy_S1 false (StartTurn false)
           new_world prep_S1); reflexivity.
Defined.

(** A conversation started without [emitStartConversationEvent]. *)
Lemma new_conversation_first_request_witness :
  exists req o rest b,
    exchanges (api (drain (createHalfDuplexChatAdapter service_S1 strategy_S1 false None).1
                      (createHalfDuplexChatAdapter service_S1 strategy_S1 false None).2).2)
      = (req, o) :: rest
    /\ req_url req = resolveURLWithQueryAndHash service_S1 "conversations/" (prep_baseURL prep_S1)
    /\ req_headers req !! "x-ms-conversationid"
       = default ∅ (prep_headers prep_S1) !! "x-ms-conversationid"
    /\ req_body req = Some b
    /\ b !! "emitStartConversationEvent" = Some (JBool (default true None)).
Proof.
  apply (new_conversation_first_request service_S1 strategy_S1 false None prep_S1).
  reflexivity.
Defined.

(** A turn with a token. *)
Lemma test_canvas_requests_carry_bearer_token_witness :
  exists new,
    exchanges (drain (turn_gen renaming_service
                        (TestCanvasBotAPIStrategy renaming_service (canvas_init token_resolves))
                        false (StartTurn true)) new_world).2
      = exchanges new_world ++ new
    /\ forall req o, (req, o) ∈ new ->
       req_headers req !! "authorization" = Some ("Bearer " +:+ "t0k3n").
Proof.
  apply (test_canvas_requests_carry_bearer_token renaming_service (canvas_init token_resolves)
           false (StartTurn true) new_world "t0k3n").
  reflexivity.
Defined.

(** A turn without a token. *)
Lemma test_canvas_token_failure_sends_nothing_witness :
  exists w',
    drain (turn_gen renaming_service
             (TestCanvasBotAPIStrategy renaming_service (canvas_init token_rejects))
             false (StartTurn true)) new_world
      = ([], Failed (MkError "no token"), w')
    /\ exchanges w' = exchanges new_world
    /\ this_conversationId w' = this_conversationId new_world.
Proof.
  apply (test_canvas_token_failure_sends_nothing renaming_service (canvas_init token_rejects)
           false (StartTurn true) new_world (MkError "no token")); reflexivity.
Defined.

(** A strategy for two UUIDs. *)
Lemma test_canvas_base_url_witness :
  exists prep,
    turn_prepare (TestCanvasBotAPIStrategy renaming_service (canvas_init token_resolves))
      (StartTurn true) 0 = inr prep
    /\ prep_baseURL prep
       = URL_new renaming_service
           ("/environments/" +:+ environmentId (canvas_init token_resolves)
            +:+ "/bots/" +:+ botId (canvas_init token_resolves) +:+ "/test/")
           (islandURI (canvas_init token_resolves))
    /\ (exists b, prep_body prep = Some b
          /\ b !! "deltaToken"
             = Some (match deltaToken (canvas_init token_resolves) with
                     | Some d => JString d
                     | None => JUndefined
                     end)
          /\ size b = 1)
    /\ prep_transport prep = Some (transport (canvas_init token_resolves)).
Proof.
  apply (test_canvas_base_url renaming_service (canvas_init token_resolves) (StartTurn true) 0
           "t0k3n"); reflexivity.
Defined.

(** A turn of the conversation c-00001. *)
Lemma executeTurn_goes_to_known_conversation_witness :
  exists req o rest b,
    exchanges (drain (executeTurn renaming_service strategy_S1 false morning) started_world).2
      = exchanges started_world ++ (req, o) :: rest
    /\ req_url req
       = resolveURLWithQueryAndHash renaming_service ("conversations/" +:+ "c-00001")
           (prep_baseURL prep_S1)
    /\ req_headers req !! "x-ms-conversationid" = Some "c-00001"
    /\ entries_named "x-ms-conversationid" (req_headers req)
       = {["x-ms-conversationid" := "c-00001"]}
    /\ req_body req = Some b
    /\ b !! "activity" = Some (JActivity morning).
Proof.
  destruct (executeTurn_goes_to_known_conversation renaming_service strategy_S1 false morning
              started_world "c-00001" prep_S1)
    as (req & o & rest & b & Hnew & Hurl & Hkey & Hentry & Hbody & Hactivity).
  - reflexivity.
  - discriminate.
  - reflexivity.
  - exists req, o, rest, b. split_and!; [done..| |done|done].
    apply Hentry. vm_compute. reflexivity.
Defined.
